(** * linkedin_bot: the discovery / filter / dedup / deliver pipeline of [main.py]

    A shallow embedding of [src/main.py] and the properties of its
    specification.

    Modelling conventions.
    - A Python [str] is a [string]: a sequence of code points in the range
      U+0000..U+00FF.  The character classes below ([isdigit], [isspace],
      [lower], the regex classes [\d], [\s], [\w]) are CPython's on that range.
    - [re] is embedded as a backtracking matcher over a regex syntax tree; each
      pattern of the source is written as a tree next to the literal it
      embeds.
    - [bs4] documents are trees of tags and strings; the markup parser is a
      parameter, the queries ([find], [find_all], [get_text]) are functions.
    - [requests], the clock and the file system are effects of a state and
      exception monad [M]; the network is an arbitrary transition system.
    - A CSV file is the list of its records, a record the list of its fields:
      the textual encoding done by [csv.writer] and undone by [csv.reader] is
      not modelled.
    - Console output ([print]) is not modelled. *)

From stdpp Require Import gmap strings list sorting pretty.
From Stdlib Require Import Ascii String QArith.

Set Default Proof Using "Type".
Open Scope string_scope.

(** ** Python string operations *)

Module Str.

Definition code (c : ascii) : N := N_of_ascii c.

Definition between (lo hi : N) (c : ascii) : bool :=
  ((lo <=? code c) && (code c <=? hi))%N.

(** Unicode category Nd on U+0000..U+00FF: [0-9]. *)
Definition isdecimal_char (c : ascii) : bool := between 48 57 c.

(** [str.isdigit] on one character: [0-9] and the superscripts
    U+00B2, U+00B3, U+00B9. *)
Definition isdigit_char (c : ascii) : bool :=
  isdecimal_char c || (code c =? 178)%N || (code c =? 179)%N || (code c =? 185)%N.

(** [str.isspace] on one character: TAB..CR, FS..US, SPACE, NEL, NBSP. *)
Definition isspace_char (c : ascii) : bool :=
  between 9 13 c || between 28 32 c || (code c =? 133)%N || (code c =? 160)%N.

(** [str.isalnum] on one character, or an underscore: the class [\w]. *)
Definition isword_char (c : ascii) : bool :=
  between 48 57 c || between 65 90 c || between 97 122 c || (code c =? 95)%N
  || (code c =? 170)%N || (code c =? 178)%N || (code c =? 179)%N
  || (code c =? 181)%N || (code c =? 185)%N || (code c =? 186)%N
  || between 188 190 c || between 192 214 c || between 216 246 c
  || between 248 255 c.

Definition lower_char (c : ascii) : ascii :=
  if between 65 90 c || between 192 214 c || between 216 222 c
  then ascii_of_N (code c + 32) else c.

Fixpoint all (p : ascii -> bool) (s : string) : bool :=
  match s with
  | EmptyString => true
  | String c s' => p c && all p s'
  end.

Definition is_empty (s : string) : bool :=
  match s with EmptyString => true | String _ _ => false end.

(** [s.isdigit()]: at least one character, all of them digits. *)
Definition isdigit (s : string) : bool := negb (is_empty s) && all isdigit_char s.

(** [s.startswith(pre)] *)
Fixpoint startswith (s pre : string) {struct pre} : bool :=
  match pre, s with
  | EmptyString, _ => true
  | String p pre', String c s' => Ascii.eqb c p && startswith s' pre'
  | String _ _, EmptyString => false
  end.

(** [sub in s] *)
Fixpoint contains (sub s : string) : bool :=
  startswith s sub ||
  match s with
  | EmptyString => false
  | String _ s' => contains sub s'
  end.

(** [s.split(sep)] for a one-character separator; never the empty list. *)
Fixpoint split (sep : ascii) (s : string) : list string :=
  match s with
  | EmptyString => [EmptyString]
  | String c s' =>
      if Ascii.eqb c sep then EmptyString :: split sep s'
      else match split sep s' with
           | x :: xs => String c x :: xs
           | [] => [String c EmptyString]
           end
  end.

Fixpoint lstrip_where (p : ascii -> bool) (s : string) : string :=
  match s with
  | EmptyString => EmptyString
  | String c s' => if p c then lstrip_where p s' else s
  end.

Fixpoint rstrip_where (p : ascii -> bool) (s : string) : string :=
  match s with
  | EmptyString => EmptyString
  | String c s' =>
      let r := rstrip_where p s' in
      if is_empty r && p c then EmptyString else String c r
  end.

(** [s.rstrip(c)] for a one-character set. *)
Definition rstrip (c : ascii) (s : string) : string := rstrip_where (Ascii.eqb c) s.

(** [s.strip()] *)
Definition strip (s : string) : string :=
  rstrip_where isspace_char (lstrip_where isspace_char s).

(** [s.lower()] *)
Fixpoint lower (s : string) : string :=
  match s with
  | EmptyString => EmptyString
  | String c s' => String (lower_char c) (lower s')
  end.

(** [sep.join(l)] *)
Fixpoint join (sep : string) (l : list string) : string :=
  match l with
  | [] => EmptyString
  | [x] => x
  | x :: xs => x +:+ sep +:+ join sep xs
  end.

Fixpoint take (n : nat) (s : string) : string :=
  match n, s with
  | S n', String c s' => String c (take n' s')
  | _, _ => EmptyString
  end.

(** Lexicographic order on code points: [a <= b] on [str]. *)
Fixpoint leb (a b : string) : bool :=
  match a, b with
  | EmptyString, _ => true
  | String _ _, EmptyString => false
  | String x a', String y b' =>
      if (code x <? code y)%N then true
      else if (code y <? code x)%N then false
      else leb a' b'
  end.

Fixpoint insert_sorted (x : string) (l : list string) : list string :=
  match l with
  | [] => [x]
  | y :: l' => if leb x y then x :: l else y :: insert_sorted x l'
  end.

(** [sorted(l)] *)
Definition sorted (l : list string) : list string := foldr insert_sorted [] l.

End Str.

(** ** Regular expressions ([re]) *)

Module Re.

Inductive regex :=
| Chars (p : ascii -> bool)   (* one character: a literal, a class, \d, \s *)
| Empty
| Seq (r1 r2 : regex)
| Alt (r1 r2 : regex)         (* r1|r2, the left branch first *)
| Star (r : regex)            (* r*, greedy *)
| Group (r : regex)           (* ( r ), capturing *)
| WordBoundary                (* \b *)
| EndOfString.                (* $ without MULTILINE *)

Definition Plus (r : regex) : regex := Seq r (Star r).
Definition Opt (r : regex) : regex := Alt r Empty.
Definition Char (c : ascii) : regex := Chars (Ascii.eqb c).
Definition NotChar (c : ascii) : regex := Chars (fun x => negb (Ascii.eqb c x)).

(** A literal character under IGNORECASE. *)
Definition CharI (c : ascii) : regex :=
  Chars (fun x => Ascii.eqb (Str.lower_char x) (Str.lower_char c)).

Fixpoint Lit (s : string) : regex :=
  match s with
  | EmptyString => Empty
  | String c s' => Seq (Char c) (Lit s')
  end.

Fixpoint LitI (s : string) : regex :=
  match s with
  | EmptyString => Empty
  | String c s' => Seq (CharI c) (LitI s')
  end.

Fixpoint Cat (rs : list regex) : regex :=
  match rs with
  | [] => Empty
  | [r] => r
  | r :: rs' => Seq r (Cat rs')
  end.

(** r{n,} *)
Fixpoint AtLeast (n : nat) (r : regex) : regex :=
  match n with
  | O => Star r
  | S n' => Seq r (AtLeast n' r)
  end.

(** The position of the matcher: the character before it and the text
    from it on. *)
Record cursor := Cursor { before : option ascii; rest : string }.

Definition captures := list string.
Definition cont := cursor -> captures -> option captures.

Definition head_char (s : string) : option ascii :=
  match s with EmptyString => None | String c _ => Some c end.

Definition is_word (o : option ascii) : bool :=
  match o with Some c => Str.isword_char c | None => false end.

Definition or_else (a : option captures) (b : option captures) : option captures :=
  match a with Some m => Some m | None => b end.

(** Greedy iteration: one more round of [body] if it consumes text,
    else the continuation. *)
Fixpoint star_loop (body : cont -> cont) (k : cont) (fuel : nat) : cont :=
  fun c caps =>
    match fuel with
    | O => k c caps
    | S fuel' =>
        or_else
          (body (fun c' caps' =>
                   if Nat.ltb (String.length (rest c')) (String.length (rest c))
                   then star_loop body k fuel' c' caps'
                   else None) c caps)
          (k c caps)
    end.

Fixpoint rmatch (r : regex) (k : cont) : cont :=
  match r with
  | Chars p => fun c caps =>
      match rest c with
      | String a s => if p a then k (Cursor (Some a) s) caps else None
      | EmptyString => None
      end
  | Empty => k
  | Seq r1 r2 => rmatch r1 (rmatch r2 k)
  | Alt r1 r2 => fun c caps => or_else (rmatch r1 k c caps) (rmatch r2 k c caps)
  | Star r1 => fun c caps => star_loop (rmatch r1) k (String.length (rest c)) c caps
  | Group r1 => fun c caps =>
      rmatch r1 (fun c' caps' =>
                   k c' (caps' ++ [Str.take (String.length (rest c)
                                             - String.length (rest c'))
                                            (rest c)])%list) c caps
  | WordBoundary => fun c caps =>
      if xorb (is_word (before c)) (is_word (head_char (rest c)))
      then k c caps else None
  | EndOfString => fun c caps =>
      match rest c with
      | EmptyString => k c caps
      | String a EmptyString => if Ascii.eqb a "010" then k c caps else None
      | _ => None
      end
  end.

Definition accept : cont := fun _ caps => Some caps.

(** [re.search]: the match at the leftmost position that has one. *)
Fixpoint search_from (r : regex) (b : option ascii) (s : string) : option captures :=
  or_else (rmatch r accept (Cursor b s) [])
          match s with
          | EmptyString => None
          | String a s' => search_from r (Some a) s'
          end.

Definition search (r : regex) (s : string) : option captures := search_from r None s.

(** [m.group(i)] for [i >= 1]. *)
Definition group (i : nat) (m : captures) : string := nth (i - 1) m EmptyString.

Definition matches (r : regex) (s : string) : bool :=
  match search r s with Some _ => true | None => false end.

End Re.

(** ** The URL canonicalizer *)

Record JobResult := { url : string; company_name : string }.

Definition LINKEDIN : string := "https://www.linkedin.com".

(** r"/jobs/view/([^/]+)/?$" *)
Definition job_view_re : Re.regex :=
  Re.Cat [Re.Lit "/jobs/view/"; Re.Group (Re.Plus (Re.NotChar "/"));
          Re.Opt (Re.Char "/"); Re.EndOfString].

Definition job_id_of_segment (segment : string) : string :=
  if Str.isdigit segment then segment
  else
    let parts := Str.split "-" segment in
    if negb (bool_decide (parts = [])) && Str.isdigit (List.last parts EmptyString)
    then List.last parts EmptyString
    else segment.

Definition normalize_job_url (url : string) : string :=
  let url := if Str.startswith url "/" then "https://www.linkedin.com" +:+ url else url in
  let base := hd EmptyString (Str.split "#" (hd EmptyString (Str.split "?" url))) in
  if negb (Str.contains "/jobs/view/" base) then base
  else
    match Re.search job_view_re base with
    | None => base
    | Some m =>
        let segment := Str.rstrip "/" (Re.group 1 m) in
        "https://www.linkedin.com/jobs/view/" +:+ job_id_of_segment segment
    end.


(** ** Documents ([bs4]) *)

Module Soup.

#[warning="-register-all"]
Inductive node :=
| NavigableString (s : string)
| OtherString (s : string)   (* Comment, Script, Stylesheet, ...: skipped by get_text *)
| Tag (name : string) (attrs : gmap string string) (contents : list node).

(** The elements below a node, in document order. *)
Fixpoint descendants (n : node) : list node :=
  match n with
  | Tag _ _ contents => flat_map (fun c => c :: descendants c) contents
  | _ => []
  end.

Definition tag_name (n : node) : option string :=
  match n with Tag name _ _ => Some name | _ => None end.

Definition tag_attrs (n : node) : gmap string string :=
  match n with Tag _ attrs _ => attrs | _ => ∅ end.

(** [tag.get(key, "")] *)
Definition get (n : node) (key : string) : string := default EmptyString (tag_attrs n !! key).

(** A filter [key=True]: the attribute is present. *)
Definition has_attr (key : string) (n : node) : bool :=
  bool_decide (is_Some (tag_attrs n !! key)).

(** The whitespace-separated tokens of a multi-valued attribute. *)
Fixpoint tokens_from (cur : string) (s : string) : list string :=
  match s with
  | EmptyString => if Str.is_empty cur then [] else [cur]
  | String c s' =>
      if Str.isspace_char c
      then (if Str.is_empty cur then tokens_from EmptyString s'
            else cur :: tokens_from EmptyString s')
      else tokens_from (cur +:+ String c EmptyString) s'
  end.

(** A filter [class_=cls] for a [cls] without whitespace. *)
Definition has_class (cls : string) (n : node) : bool :=
  match tag_attrs n !! "class" with
  | Some v => bool_decide (cls ∈ tokens_from EmptyString v)
  | None => false
  end.

Definition any (n : node) : bool := true.

(** [tag.find_all(name, filter)] *)
Definition find_all (root : node) (name : string) (p : node -> bool) : list node :=
  List.filter (fun n => bool_decide (tag_name n = Some name) && p n) (descendants root).

(** [tag.find(name, filter)] *)
Definition find (root : node) (name : string) (p : node -> bool) : option node :=
  head (find_all root name p).

Definition stripped_strings (root : node) : list string :=
  List.filter (fun s => negb (Str.is_empty s))
    (flat_map (fun n => match n with NavigableString s => [Str.strip s] | _ => [] end)
              (descendants root)).

(** [tag.get_text(separator=" ", strip=True)] *)
Definition get_text (root : node) : string := Str.join " " (stripped_strings root).

End Soup.

(** ** JSON values, as [json.loads] returns them *)

#[warning="-register-all"]
Inductive json :=
| JNull
| JBool (b : bool)
| JInt (z : Z)
| JFloat (q : Q)
| JStr (s : string)
| JArr (l : list json)
| JObj (m : gmap string json).

(** Python truth value of a decoded JSON value; [None] stands for a missing key. *)
Definition truthy (v : option json) : bool :=
  match v with
  | None | Some JNull => false
  | Some (JBool b) => b
  | Some (JInt z) => negb (z =? 0)%Z
  | Some (JFloat q) => negb (Qnum q =? 0)%Z
  | Some (JStr s) => negb (Str.is_empty s)
  | Some (JArr l) => negb (bool_decide (l = []))
  | Some (JObj m) => negb (bool_decide (dom m = ∅))
  end.

(** ** Constants of the module *)

Definition SEARCH_URL : string :=
  "https://www.linkedin.com/jobs/search/" +:+
  "?keywords=engineer" +:+
  "&location=United States" +:+
  "&f_TPR=r86400" +:+
  "&f_WT=2" +:+
  "&sortBy=DD".

Definition USER_AGENT : string :=
  "Mozilla/5.0 (Windows NT 10.0; Win64; x64) " +:+
  "AppleWebKit/537.36 (KHTML, like Gecko) " +:+
  "Chrome/122.0.0.0 Safari/537.36".

Definition THIRD_PARTY_KEYWORDS : list string :=
  ["indeed"; "monster"; "glassdoor"; "ziprecruiter"].

Definition CSV_PATH : string := "data.csv".
Definition SLACK_API_URL : string := "https://slack.com/api/chat.postMessage".

(** ** The employee-count patterns (all under IGNORECASE) *)

Definition ws : Re.regex := Re.Chars Str.isspace_char.          (* \s *)
Definition digit : Re.regex := Re.Chars Str.isdecimal_char.     (* \d *)
Definition range (lo hi : ascii) : Re.regex :=
  Re.Chars (fun c => (Str.code lo <=? Str.code c)%N && (Str.code c <=? Str.code hi)%N).

(** \b lo \s*-\s* hi \s+employees?\b *)
Definition employees_range (lo hi : string) : Re.regex :=
  Re.Cat [Re.WordBoundary; Re.LitI lo; Re.Star ws; Re.Char "-"; Re.Star ws; Re.LitI hi;
          Re.Plus ws; Re.LitI "employee"; Re.Opt (Re.CharI "s"); Re.WordBoundary].

Definition in_range_patterns : list Re.regex :=
  [ employees_range "1" "10";                                   (* \b1\s*-\s*10\s+employees?\b *)
    employees_range "11" "50";                                  (* \b11\s*-\s*50\s+employees?\b *)
    Re.Cat [Re.WordBoundary; Re.LitI "1"; Re.Plus ws;
            Re.LitI "employee"; Re.WordBoundary];               (* \b1\s+employee\b *)
    employees_range "2" "10" ].                                 (* \b2\s*-\s*10\s+employees?\b *)

Definition out_of_range_patterns : list Re.regex :=
  [ employees_range "51" "200";
    employees_range "201" "500";
    employees_range "501" "1000";
    employees_range "1001" "5000";
    employees_range "5001" "10000";
    (* \b10001\s*\+\s*employees?\b *)
    Re.Cat [Re.WordBoundary; Re.LitI "10001"; Re.Star ws; Re.Char "+"; Re.Star ws;
            Re.LitI "employee"; Re.Opt (Re.CharI "s"); Re.WordBoundary];
    (* \b(?:5[1-9]|[6-9]\d|\d{3,})\s+employees?\b *)
    Re.Cat [Re.WordBoundary;
            Re.Alt (Re.Seq (Re.Char "5") (range "1" "9"))
                   (Re.Alt (Re.Seq (range "6" "9") digit) (Re.AtLeast 3 digit));
            Re.Plus ws; Re.LitI "employee"; Re.Opt (Re.CharI "s"); Re.WordBoundary] ].

(** ** The collaborators and the effects *)

Record response := { status_code : Z; text : string }.

(** The world outside the program.  [session_get] and [requests_post] answer
    [None] when the call raises (no connection, timeout, invalid URL). *)
Record Platform := {
  net : Type;
  session_get : string -> list (string * string) -> net -> option response * net;
  requests_post : string -> list (string * string) -> json -> net -> option response * net;
  time_sleep : Q -> net -> net;
  html_parser : string -> list Soup.node;
  json_loads : string -> option json;
  environ : gmap string string;
}.

Inductive exn :=
| ConnectionError    (* requests.ConnectionError, Timeout, ...: a call that got no response *)
| HTTPError          (* raise_for_status *)
| JSONDecodeError    (* requests.exceptions.JSONDecodeError *)
| FileNotFoundError
| AttributeError.

(** [except requests.RequestException] *)
Definition is_RequestException (e : exn) : bool :=
  match e with
  | ConnectionError | HTTPError | JSONDecodeError => true
  | FileNotFoundError | AttributeError => false
  end.

Definition is_FileNotFoundError (e : exn) : bool :=
  match e with FileNotFoundError => true | _ => false end.

Inductive outcome (A : Type) :=
| Return (a : A)
| Raise (e : exn).
Arguments Return {A} a.
Arguments Raise {A} e.

(** A CSV file: its records. *)
Abbreviation csv_file := (list (list string)).

Section Program.

Context (P : Platform).

Record state := State { network : net P; files : gmap string csv_file }.

Definition M (A : Type) : Type := state -> outcome A * state.

#[export] Instance M_ret : MRet M := fun A a st => (Return a, st).

#[export] Instance M_bind : MBind M := fun A B f m st =>
  match m st with
  | (Return a, st') => f a st'
  | (Raise e, st') => (Raise e, st')
  end.

Definition raise {A} (e : exn) : M A := fun st => (Raise e, st).

(** [try: body  except <handles>: handler] *)
Definition try_except {A} (body : M A) (handles : exn -> bool) (handler : M A) : M A :=
  fun st =>
    match body st with
    | (Raise e, st') => if handles e then handler st' else (Raise e, st')
    | r => r
    end.

Definition lift_net {A} (e : exn) (f : net P -> option A * net P) : M A := fun st =>
  match f (network st) with
  | (Some a, w) => (Return a, State w (files st))
  | (None, w) => (Raise e, State w (files st))
  end.

(** [time.sleep(seconds)] *)
Definition sleep (seconds : Q) : M unit := fun st =>
  (Return tt, State (time_sleep P seconds (network st)) (files st)).

(** [BeautifulSoup(html, "html.parser")] *)
Definition BeautifulSoup (html : string) : Soup.node :=
  Soup.Tag "[document]" ∅ (html_parser P html).

(** [open(path, "r")] followed by [csv.reader]: the records of the file. *)
Definition open_read (path : string) : M csv_file := fun st =>
  match files st !! path with
  | Some f => (Return f, st)
  | None => (Raise FileNotFoundError, st)
  end.

(** [os.path.isfile(path)] *)
Definition isfile (path : string) : M bool := fun st =>
  (Return (bool_decide (is_Some (files st !! path))), st).

(** [open(path, "a")] followed by [writer.writerow] for each of [rows]:
    the file is created when missing. *)
Definition open_append (path : string) (rows : csv_file) : M unit := fun st =>
  (Return tt,
   State (network st) (<[path := (default [] (files st !! path) ++ rows)%list]> (files st))).


(** *** Fetching *)

Definition raise_for_status (resp : response) : M unit :=
  if ((400 <=? status_code resp) && (status_code resp <? 600))%Z
  then raise HTTPError else mret tt.

Definition fetch_page (url : string) : M string :=
  resp ← lift_net ConnectionError (session_get P url [("User-Agent", USER_AGENT)]);
  raise_for_status resp;;
  mret (text resp).

(** *** Listing discovery *)

Definition parse_job_links_from_search (html : string) : list string :=
  let soup := BeautifulSoup html in
  let links : gset string :=
    foldl (fun (links : gset string) a =>
             let href := Soup.get a "href" in
             if Str.contains "/jobs/view/" href then
               let href := if Str.startswith href "/"
                           then "https://www.linkedin.com" +:+ href else href in
               let href_base :=
                 hd EmptyString (Str.split "#" (hd EmptyString (Str.split "?" href))) in
               if Str.contains "/jobs/view/" href_base
               then links ∪ {[normalize_job_url href_base]}
               else links
             else links)
          ∅ (Soup.find_all soup "a" (Soup.has_attr "href")) in
  Str.sorted (elements links).

(** *** First-party detection *)

(** [soup.find("div", attrs={"data-test-job-header": True})
     or soup.find("div", class_="top-card-layout__entity-info")] *)
Definition job_header (soup : Soup.node) : option Soup.node :=
  match Soup.find soup "div" (Soup.has_attr "data-test-job-header") with
  | Some header => Some header
  | None => Soup.find soup "div" (Soup.has_class "top-card-layout__entity-info")
  end.

Definition third_party_label (label : string) : bool :=
  Str.contains "apply on " label
  && existsb (fun k => Str.contains k label) THIRD_PARTY_KEYWORDS.

Definition is_first_party_job (html : string) : bool :=
  let soup := BeautifulSoup html in
  let header := job_header soup in
  if match header with
     | Some header => Str.contains " via " (Str.lower (Soup.get_text header))
     | None => false
     end
  then false
  else
    let apply_buttons :=
      (Soup.find_all soup "button" Soup.any ++ Soup.find_all soup "a" Soup.any)%list in
    if existsb (fun el => third_party_label (Str.lower (Soup.get_text el))) apply_buttons
    then false
    else true.

(** *** Company size *)

Fixpoint first_company_url (anchors : list Soup.node) : string :=
  match anchors with
  | [] => EmptyString
  | a :: anchors' =>
      let href := Str.strip (Soup.get a "href") in
      if negb (Str.contains "/company/" href) then first_company_url anchors'
      else
        let href := if Str.startswith href "/"
                    then "https://www.linkedin.com" +:+ href else href in
        let base := hd EmptyString (Str.split "#" (hd EmptyString (Str.split "?" href))) in
        if negb (Str.is_empty base) then base else first_company_url anchors'
  end.

Definition parse_company_profile_url_from_job_page (html : string) : string :=
  let soup := BeautifulSoup html in
  match job_header soup with
  | None => EmptyString
  | Some header => first_company_url (Soup.find_all header "a" (Soup.has_attr "href"))
  end.

Definition _parse_employee_range_from_text (text : string) : bool :=
  if existsb (fun pat => Re.matches pat text) in_range_patterns then true
  else if existsb (fun pat => Re.matches pat text) out_of_range_patterns then false
  else false.

Definition is_company_size_1_to_50 (job_page_html : string) : M bool :=
  let company_url := parse_company_profile_url_from_job_page job_page_html in
  if Str.is_empty company_url then mret false
  else
    fetched ← try_except
                (company_html ← fetch_page company_url;
                 sleep 1;;
                 mret (Some company_html))
                is_RequestException
                (mret None);
    match fetched with
    | None => mret false
    | Some company_html =>
        let soup := BeautifulSoup company_html in
        let text := Soup.get_text soup in
        mret (_parse_employee_range_from_text text)
    end.

Fixpoint first_company_name (anchors : list Soup.node) : string :=
  match anchors with
  | [] => EmptyString
  | a :: anchors' =>
      let href := Soup.get a "href" in
      if Str.contains "/company/" href then
        let name := Soup.get_text a in
        if negb (Str.is_empty name) && (String.length name <? 200)%nat then name
        else first_company_name anchors'
      else first_company_name anchors'
  end.

Definition parse_company_name_from_job_page (html : string) : string :=
  let soup := BeautifulSoup html in
  match job_header soup with
  | None => EmptyString
  | Some header => first_company_name (Soup.find_all header "a" (Soup.has_attr "href"))
  end.

(** *** The filter pipeline *)

(** The body of the [for url in job_urls] loop of [filter_first_party_jobs]:
    the [try] statement, then the pause. *)
Definition filter_step (delay_seconds : Q) (results : list JobResult) (url : string)
  : M (list JobResult) :=
  results ← try_except
              (html ← fetch_page url;
               if is_first_party_job html then
                 small ← is_company_size_1_to_50 html;
                 if small : bool then
                   let company_name := parse_company_name_from_job_page html in
                   mret (results ++ [{| url := url; company_name := company_name |}])%list
                 else mret results
               else mret results)
              is_RequestException
              (mret results);
  sleep delay_seconds;;
  mret results.

Fixpoint filter_loop (delay_seconds : Q) (job_urls : list string)
         (results : list JobResult) : M (list JobResult) :=
  match job_urls with
  | [] => mret results
  | url :: job_urls' =>
      results ← filter_step delay_seconds results url;
      filter_loop delay_seconds job_urls' results
  end.

Definition filter_first_party_jobs (job_urls : list string) (delay_seconds : Q)
  : M (list JobResult) :=
  filter_loop delay_seconds job_urls [].

(** *** The persisted store *)

(** One row of [csv.DictReader]: the fields under their column names, a
    later column of the same name winning, [None] for a missing field. *)
Definition dict_row (fieldnames row : list string) : gmap string (option string) :=
  let d : gmap string (option string) :=
    foldl (fun d kv => <[kv.1 := Some kv.2]> d) ∅ (zip fieldnames row) in
  foldl (fun d key => <[key := None]> d) d (drop (List.length row) fieldnames).

(** [csv.DictReader(f)]: the first record names the columns, empty records
    are skipped. *)
Definition DictReader (f : csv_file) : list (gmap string (option string)) :=
  match f with
  | [] => []
  | fieldnames :: rows =>
      dict_row fieldnames <$> List.filter (fun row => negb (bool_decide (row = []))) rows
  end.

Definition add_row_url (urls : gset string) (row : gmap string (option string))
  : gset string :=
  match row !! "job_url" with
  | Some (Some v) =>
      if negb (Str.is_empty v) then
        let raw := Str.strip v in
        urls ∪ {[ if Str.contains "/jobs/view/" raw then normalize_job_url raw else raw ]}
      else urls
  | _ => urls
  end.

Definition load_existing_job_urls (csv_path : string) : M (gset string) :=
  try_except
    (f ← open_read csv_path;
     mret (foldl add_row_url ∅ (DictReader f)))
    is_FileNotFoundError
    (mret ∅).

Definition append_jobs_to_csv (jobs : list JobResult) (csv_path : string) : M unit :=
  file_exists ← isfile csv_path;
  open_append csv_path
    ((if file_exists : bool then [] else [["company"; "job_url"]])
     ++ ((fun job => [company_name job; url job]) <$> jobs))%list.

(** *** Discovery *)

Fixpoint collect_pages (pages : list nat) (all_job_urls : gset string)
  : M (gset string) :=
  match pages with
  | [] => mret all_job_urls
  | page :: pages' =>
      let start := (page * 25)%nat in
      let url := SEARCH_URL +:+ "&start=" +:+ pretty start in
      fetched ← try_except (html ← fetch_page url; mret (Some html))
                           is_RequestException (mret None);
      match fetched with
      | None => mret all_job_urls
      | Some html =>
          let page_links := parse_job_links_from_search html in
          if bool_decide (page_links = []) then mret all_job_urls
          else
            sleep 2;;
            collect_pages pages' (all_job_urls ∪ list_to_set page_links)
      end
  end.

Definition collect_recent_remote_engineer_jobs (limit_pages : nat) : M (list JobResult) :=
  all_job_urls ← collect_pages (seq 0 limit_pages) ∅;
  filter_first_party_jobs (Str.sorted (elements all_job_urls)) 2.

(** *** Notification *)

Definition SLACK_CHANNEL_ID : option string := environ P !! "SLACK_CHANNEL_ID".

(** [data.get("ok")]: only a dict has [get]. *)
Definition json_get (data : json) (key : string) : M (option json) :=
  match data with
  | JObj m => mret (m !! key)
  | _ => raise AttributeError
  end.

(** [resp.json()] *)
Definition response_json (resp : response) : M json :=
  match json_loads P (text resp) with
  | Some data => mret data
  | None => raise JSONDecodeError
  end.

Definition send_job_to_slack (job : JobResult) (channel_id : option string)
           (token : string) : M bool :=
  if Str.is_empty token || Str.is_empty (default EmptyString channel_id) then mret false
  else
    let company := if Str.is_empty (company_name job) then "Company"
                   else company_name job in
    let text := company +:+ ": " +:+ url job in
    try_except
      (resp ← lift_net ConnectionError
                (requests_post P SLACK_API_URL
                   [("Authorization", "Bearer " +:+ token);
                    ("Content-Type", "application/json")]
                   (JObj (<["channel" := JStr (default EmptyString channel_id)]>
                            (<["text" := JStr text]> ∅))));
       data ← response_json resp;
       ok ← json_get data "ok";
       if negb (truthy ok) then mret false else mret true)
      is_RequestException
      (mret false).

(** *** One cycle *)

(** The [for job in new_jobs] loop of [run_once]. *)
Fixpoint post_new_jobs (slack_token : string) (new_jobs : list JobResult)
         (jobs_posted_to_slack : list JobResult) : M (list JobResult) :=
  match new_jobs with
  | [] => mret jobs_posted_to_slack
  | job :: new_jobs' =>
      if negb (Str.is_empty slack_token) then
        sent ← send_job_to_slack job SLACK_CHANNEL_ID slack_token;
        if sent : bool
        then post_new_jobs slack_token new_jobs' (jobs_posted_to_slack ++ [job])%list
        else post_new_jobs slack_token new_jobs' jobs_posted_to_slack
      else post_new_jobs slack_token new_jobs' (jobs_posted_to_slack ++ [job])%list
  end.

Definition run_once : M unit :=
  existing_urls ← load_existing_job_urls CSV_PATH;
  jobs ← collect_recent_remote_engineer_jobs 1;
  let new_jobs := List.filter (fun j => bool_decide (url j ∉ existing_urls)) jobs in
  let slack_token := Str.strip (default EmptyString (environ P !! "SLACK_BOT_TOKEN")) in
  jobs_posted_to_slack ← post_new_jobs slack_token new_jobs [];
  if negb (bool_decide (jobs_posted_to_slack = []))
  then append_jobs_to_csv jobs_posted_to_slack CSV_PATH
  else mret tt.

End Program.


(** * Vocabulary of the statements and proofs *)

Section Vocabulary.
Import Re.

Definition before_sep (c : ascii) (s : string) : string := hd EmptyString (Str.split c s).

Definition not_slash (a : ascii) : bool := negb (Ascii.eqb "/" a).

(** What a greedy run of one-character steps tries, longest first. *)
Fixpoint greedy (p : ascii -> bool) (k : cont) (b : option ascii) (s : string)
         (caps : captures) : option captures :=
  match s with
  | String a s' =>
      if p a then or_else (greedy p k (Some a) s' caps) (k (Cursor b s) caps)
      else k (Cursor b s) caps
  | EmptyString => k (Cursor b EmptyString) caps
  end.

(** The continuation of the group of [job_view_re]. *)
Definition tail_k : cont := rmatch (Opt (Char "/")) (rmatch EndOfString accept).

Definition group_k (r0 : string) : cont := fun c' caps' =>
  tail_k c' (caps' ++ [Str.take (String.length r0 - String.length (rest c')) r0])%list.

Fixpoint group_free (r : regex) : bool :=
  match r with
  | Group _ => false
  | Seq r1 r2 | Alt r1 r2 => group_free r1 && group_free r2
  | Star r1 => group_free r1
  | _ => true
  end.

Definition keeps_captures (k : cont) : Prop :=
  forall c caps m, k c caps = Some m -> m = caps.

Definition not_char (c : ascii) (a : ascii) : bool := negb (Ascii.eqb a c).

(** The last two steps of [normalize_job_url], on the stripped URL. *)
Definition canonical_of_base (base : string) : string :=
  if negb (Str.contains "/jobs/view/" base) then base
  else
    match Re.search job_view_re base with
    | None => base
    | Some m =>
        "https://www.linkedin.com/jobs/view/"
        +:+ job_id_of_segment (Str.rstrip "/" (Re.group 1 m))
    end.

Definition with_origin (url : string) : string :=
  if Str.startswith url "/" then "https://www.linkedin.com" +:+ url else url.

(** A character of a path segment: not a path, query or fragment delimiter. *)
Definition segment_char (a : ascii) : bool :=
  negb (Ascii.eqb a "/") && negb (Ascii.eqb a "?") && negb (Ascii.eqb a "#").

(** Nothing, or a query string, or a fragment. *)
Definition query_or_fragment (q : string) : bool :=
  match q with
  | EmptyString => true
  | String c _ => Ascii.eqb c "?" || Ascii.eqb c "#"
  end.

(** Relative, or under the site origin. *)
Definition site_prefix (pre : string) : Prop :=
  pre = EmptyString \/ pre = "https://www.linkedin.com".

Definition trailing_slash (t : string) : Prop := t = EmptyString \/ t = "/".

End Vocabulary.

Section EffectVocabulary.
Context {P : Platform}.

(** The computation leaves every file as it is. *)
Definition preserves_files {A} (m : M P A) : Prop :=
  forall st, files P (m st).2 = files P st.

(** The computation returns: no exception leaves it. *)
Definition never_raises {A} (m : M P A) : Prop :=
  forall st, exists a st', m st = (Return a, st').

(** An exception that leaves the computation is one of [handles]. *)
Definition only_raises {A} (handles : exn -> bool) (m : M P A) : Prop :=
  forall st e st', m st = (Raise e, st') -> handles e = true.

(** What [filter_step] adds for [url], given the fetched job page. *)
Definition step_outcome (url : string) (st : state P) : list JobResult * state P :=
  match fetch_page P url st with
  | (Raise _, st1) => ([], st1)
  | (Return html, st1) =>
      if is_first_party_job P html then
        match is_company_size_1_to_50 P html st1 with
        | (Return true, st2) =>
            ([{| url := url; company_name := parse_company_name_from_job_page P html |}], st2)
        | (_, st2) => ([], st2)
        end
      else ([], st1)
  end.

(** The identity [load_existing_job_urls] records for a stored [job_url] field. *)
Definition stored_identity (v : string) : string :=
  let raw := Str.strip v in
  if Str.contains "/jobs/view/" raw then normalize_job_url raw else raw.

(** The identities of a store: of the file at the path, if there is one. *)
Definition existing_of (f : option csv_file) : gset string :=
  match f with
  | Some f => foldl add_row_url ∅ (DictReader f)
  | None => ∅
  end.

(** The one transport call of [send_job_to_slack]. *)
Definition slack_call (job : JobResult) (channel token : string)
  : net P -> option response * net P :=
  requests_post P SLACK_API_URL
    [("Authorization", "Bearer " +:+ token); ("Content-Type", "application/json")]
    (JObj (<["channel" := JStr channel]>
             (<["text" := JStr ((if Str.is_empty (company_name job) then "Company"
                                 else company_name job) +:+ ": " +:+ url job)]> ∅))).

(** What [send_job_to_slack] makes of the channel's answer. *)
Definition slack_verdict (answer : option response) : outcome bool :=
  match answer with
  | None => Return false
  | Some resp =>
      match json_loads P (text resp) with
      | None => Return false
      | Some (JObj m) => Return (truthy (m !! "ok"))
      | Some _ => Raise AttributeError
      end
  end.

(** The token [run_once] reads from the environment. *)
Definition slack_token : string :=
  Str.strip (default EmptyString (environ P !! "SLACK_BOT_TOKEN")).


(** The discovered jobs that are not in the loaded dataset. *)
Definition new_jobs_of (existing_urls : gset string) (jobs : list JobResult)
  : list JobResult :=
  List.filter (fun j => bool_decide (url j ∉ existing_urls)) jobs.

End EffectVocabulary.

Arguments slack_call : clear implicits.
Arguments slack_verdict : clear implicits.
Arguments slack_token : clear implicits.

(** ** Example platforms *)

Definition anchor (href label : string) : Soup.node :=
  Soup.Tag "a" {[ "href" := href ]} [Soup.NavigableString label].

Definition button (label : string) : Soup.node :=
  Soup.Tag "button" ∅ [Soup.NavigableString label].

Definition header_div (contents : list Soup.node) : Soup.node :=
  Soup.Tag "div" {[ "class" := "top-card-layout__entity-info flex-grow" ]} contents.

(** A job page of Acme, applied to on the company's own site. *)
Definition acme_job_page : list Soup.node :=
  [header_div [Soup.NavigableString " Engineer "; anchor "/company/acme?trk=job" " Acme "];
   button "Apply on company website"].

Definition acme_company_page : list Soup.node :=
  [Soup.Tag "p" ∅ [Soup.NavigableString "Acme builds anvils."];
   Soup.Tag "dd" ∅ [Soup.NavigableString " 11-50 employees "]].

(** Documents are named by their text; [search] is the text of the search page. *)
Definition example_parser (search : list Soup.node) (html : string) : list Soup.node :=
  if String.eqb html "search" then search
  else if String.eqb html "job" then acme_job_page
  else if String.eqb html "company" then acme_company_page
  else [].

Definition example_get (url : string) (headers : list (string * string)) (w : nat)
  : option response * nat :=
  if Str.contains "/jobs/search/" url then (Some {| status_code := 200; text := "search" |}, w)
  else if Str.contains "/jobs/view/" url then (Some {| status_code := 200; text := "job" |}, w)
  else if Str.contains "/company/" url then (Some {| status_code := 200; text := "company" |}, w)
  else (None, w).

Definition failing_get (url : string) (headers : list (string * string)) (w : nat)
  : option response * nat := (None, w).

Definition example_loads (s : string) : option json :=
  if String.eqb s "ok" then Some (JObj {[ "ok" := JBool true ]})
  else if String.eqb s "error" then
    Some (JObj {[ "ok" := JBool false; "error" := JStr "channel_not_found" ]})
  else if String.eqb s "array" then Some (JArr [])
  else None.

(** The network state counts the posts made; [answers] gives the answer to
    each. *)
Definition example_platform
           (get : string -> list (string * string) -> nat -> option response * nat)
           (search : list Soup.node) (answers : nat -> option response)
           (env : gmap string string) : Platform :=
  {| net := nat;
     session_get := get;
     requests_post := fun _ _ _ w => (answers w, S w);
     time_sleep := fun _ w => w;
     html_parser := example_parser search;
     json_loads := example_loads;
     environ := env |}.

Definition two_jobs_search : list Soup.node :=
  [anchor "/jobs/view/engineer-at-acme-1?position=1" "Engineer";
   anchor "https://www.linkedin.com/jobs/view/2/" "Developer"].

Definition slack_env : gmap string string :=
  {[ "SLACK_BOT_TOKEN" := "xoxb-1"; "SLACK_CHANNEL_ID" := "C1" ]}.

(** The channel acknowledges the first post and answers the second with a
    JSON array. *)
Definition array_answer_platform : Platform :=
  example_platform example_get two_jobs_search
    (fun w => Some {| status_code := 200; text := if Nat.eqb w 0 then "ok" else "array" |})
    slack_env.

(** The channel answers every post with status 500 and an acknowledgment. *)
Definition status_500_platform : Platform :=
  example_platform example_get two_jobs_search
    (fun _ => Some {| status_code := 500; text := "ok" |}) slack_env.

(** The channel refuses every post. *)
Definition refusing_platform : Platform :=
  example_platform example_get two_jobs_search
    (fun _ => Some {| status_code := 200; text := "error" |}) slack_env.

(** A token and no channel. *)
Definition no_channel_platform : Platform :=
  example_platform example_get two_jobs_search
    (fun _ => Some {| status_code := 200; text := "ok" |})
    {[ "SLACK_BOT_TOKEN" := "xoxb-1" ]}.

(** No token; the search page links a job with a space after its id. *)
Definition trailing_space_platform : Platform :=
  example_platform example_get [anchor "/jobs/view/123 " "Engineer"] (fun _ => None) ∅.

(** No token. *)
Definition no_notifier_platform : Platform :=
  example_platform example_get two_jobs_search (fun _ => None) ∅.

(** No page can be fetched. *)
Definition offline_platform : Platform :=
  example_platform failing_get [] (fun _ => None) ∅.

Definition acme_job (u : string) : JobResult := {| url := u; company_name := "Acme" |}.

Definition start (P : Platform) (w : net P) (store : gmap string csv_file) : state P :=
  State P w store.

(** A header that names an external source; a button that leads to a job
    board; [183] is the middle dot. *)
Definition via_page : list Soup.node :=
  [Soup.Tag "div" {[ "data-test-job-header" := "" ]}
     [Soup.NavigableString ("Acme Corp " +:+ String "183" " via LinkedIn")]].

Definition indeed_page : list Soup.node :=
  [button "Apply on Indeed"].

Definition classifier_platform : Platform :=
  {| net := nat;
     session_get := failing_get;
     requests_post := fun _ _ _ w => (None, w);
     time_sleep := fun _ w => w;
     html_parser := fun html =>
       if String.eqb html "via" then via_page
       else if String.eqb html "indeed" then indeed_page
       else acme_job_page;
     json_loads := example_loads;
     environ := ∅ |}.

(** A store with one row written before URLs were canonicalized. *)
Definition legacy_store : gmap string csv_file :=
  {[ CSV_PATH := [["company"; "job_url"];
                  ["Acme"; " /jobs/view/engineer-at-acme-1?position=3 "]] ]}.

(** ** Vocabulary of the further properties *)




(** The character before the position reached after [pre], started after [b]. *)
Fixpoint before_of (pre : string) (b : option ascii) : option ascii :=
  match pre with
  | EmptyString => b
  | String a pre' => before_of pre' (Some a)
  end.

(** The phrases of the in-range patterns, as the specification spells them. *)
Definition in_range_phrases : list string :=
  ["1-10 employees"; "11-50 employees"; "1 employee"; "2-10 employees"].

(** The identity [parse_job_links_from_search] records for a link target. *)
Definition job_link (href : string) : option string :=
  if Str.contains "/jobs/view/" href then
    let href_base := before_sep "#" (before_sep "?" (with_origin href)) in
    if Str.contains "/jobs/view/" href_base then Some (normalize_job_url href_base)
    else None
  else None.

(** A canonical job URL: it names a job page and canonicalizing it changes
    nothing. *)
Definition canonical_job_url (u : string) : Prop :=
  Str.contains "/jobs/view/" u = true /\ normalize_job_url u = u.

Definition ascending (l : list string) : Prop :=
  StronglySorted (fun a b => Str.leb a b = true) l.

(** What [fetch_page] returns for an answer of the network: the body, unless
    there is no answer or its status is an error status. *)
Definition page_text (answer : option response) : option string :=
  match answer with
  | Some resp =>
      if ((400 <=? status_code resp) && (status_code resp <? 600))%Z then None
      else Some (text resp)
  | None => None
  end.

(** The record [filter_first_party_jobs] keeps for [url] on a network whose
    answer to a request is [page] of its URL: the job page is fetched and
    first-party, it links a company page that is fetched too, and the text of
    that page is in range. *)
Definition accepted_record (P : Platform) (page : string -> option response) (url : string)
  : option JobResult :=
  html ← page_text (page url);
  if is_first_party_job P html then
    let company_url := parse_company_profile_url_from_job_page P html in
    if Str.is_empty company_url then None
    else
      company_html ← page_text (page company_url);
      if _parse_employee_range_from_text (Soup.get_text (BeautifulSoup P company_html))
      then Some {| url := url; company_name := parse_company_name_from_job_page P html |}
      else None
  else None.

(** * Facts *)

#[local] Arguments Ascii.eqb : simpl never.

Section CanonicalizerFacts.
Import Re.

Lemma split_nonempty c s : Str.split c s <> [].
Proof. destruct s as [|a s]; simpl; [done|]. destruct (Ascii.eqb a c); [done|]. by destruct (Str.split c s). Qed.

Lemma before_sep_cons c a s :
  before_sep c (String a s) = if Ascii.eqb a c then EmptyString else String a (before_sep c s).
Proof.
  unfold before_sep; simpl. destruct (Ascii.eqb a c); [done|].
  pose proof (split_nonempty c s). by destruct (Str.split c s).
Qed.

Lemma append_cons a s t : String a s +:+ t = String a (s +:+ t).
Proof. reflexivity. Qed.

Lemma append_nil_l t : EmptyString +:+ t = t.
Proof. reflexivity. Qed.

Lemma append_nil_r s : s +:+ EmptyString = s.
Proof. induction s; rewrite ?append_cons, ?append_nil_l; congruence. Qed.

Lemma append_assoc a b c : (a +:+ b) +:+ c = a +:+ (b +:+ c).
Proof. induction a; rewrite ?append_cons, ?append_nil_l; congruence. Qed.

Lemma all_app p a b : Str.all p (a +:+ b) = Str.all p a && Str.all p b.
Proof.
  induction a; rewrite ?append_cons, ?append_nil_l; simpl; [done|].
  rewrite IHa. by rewrite andb_assoc.
Qed.

Lemma before_sep_app c x y :
  Str.all (fun a => negb (Ascii.eqb a c)) x = true ->
  before_sep c (x +:+ y) = x +:+ before_sep c y.
Proof.
  induction x as [|a x IH]; rewrite ?append_cons, ?append_nil_l; simpl; [done|].
  intros [Ha Hx]%andb_true_iff.
  rewrite before_sep_cons. apply negb_true_iff in Ha. rewrite Ha. by rewrite IH.
Qed.

Lemma before_sep_id c x :
  Str.all (fun a => negb (Ascii.eqb a c)) x = true -> before_sep c x = x.
Proof.
  intros H. rewrite <- (append_nil_r x) at 1. rewrite before_sep_app by done.
  by rewrite append_nil_r.
Qed.

Lemma before_sep_free c s : Str.all (fun a => negb (Ascii.eqb a c)) (before_sep c s) = true.
Proof.
  induction s as [|a s IH]; [done|]. rewrite before_sep_cons.
  destruct (Ascii.eqb a c) eqn:E; simpl; [done|]. by rewrite E, IH.
Qed.

Lemma before_sep_all p c s : Str.all p s = true -> Str.all p (before_sep c s) = true.
Proof.
  induction s as [|a s IH]; [done|]. rewrite before_sep_cons. simpl.
  intros [Ha Hs]%andb_true_iff. destruct (Ascii.eqb a c); simpl; [done|].
  by rewrite Ha, IH.
Qed.

Lemma before_sep_startswith c s :
  c <> "/"%char -> Str.startswith (before_sep c s) "/" = Str.startswith s "/".
Proof.
  intros Hc. destruct s as [|a s]; [done|]. rewrite before_sep_cons.
  destruct (Ascii.eqb a c) eqn:E; simpl; [|by rewrite !andb_true_r].
  apply Ascii.eqb_eq in E; subst a. symmetry. rewrite andb_true_r.
  by apply Ascii.eqb_neq.
Qed.

Lemma all_impl (p q : ascii -> bool) s :
  (forall a, p a = true -> q a = true) -> Str.all p s = true -> Str.all q s = true.
Proof.
  intros Hpq. induction s as [|a s IH]; simpl; [done|].
  intros [Ha Hs]%andb_true_iff. by rewrite (Hpq _ Ha), IH.
Qed.

Lemma rstrip_where_id p s :
  Str.all (fun a => negb (p a)) s = true -> Str.rstrip_where p s = s.
Proof.
  induction s as [|a s IH]; simpl; [done|]. intros [Ha Hs]%andb_true_iff.
  rewrite IH by done. apply negb_true_iff in Ha. rewrite Ha. by rewrite andb_false_r.
Qed.

Lemma split_all p c s :
  Str.all p s = true -> Forall (fun x => Str.all p x = true) (Str.split c s).
Proof.
  induction s as [|a s IH]; simpl; [by repeat constructor|].
  intros [Ha Hs]%andb_true_iff. specialize (IH Hs).
  destruct (Ascii.eqb a c); [by constructor|].
  destruct (Str.split c s) as [|x xs]; [by repeat constructor; simpl; rewrite Ha|].
  inversion IH; subst. constructor; [simpl; by rewrite Ha|done].
Qed.

Lemma last_split_all p c s :
  Str.all p s = true -> Str.all p (List.last (Str.split c s) EmptyString) = true.
Proof.
  intros H. apply split_all with (c := c) in H.
  induction H as [|x l Hx Hl IH]; [done|]. destruct l; [done|]. exact IH.
Qed.

Lemma split_free c s :
  Str.all (fun a => negb (Ascii.eqb a c)) s = true -> Str.split c s = [s].
Proof.
  induction s as [|a s IH]; simpl; [done|]. intros [Ha Hs]%andb_true_iff.
  apply negb_true_iff in Ha. by rewrite Ha, IH.
Qed.

Lemma last_split_app c x y :
  List.last (Str.split c (x +:+ String c y)) EmptyString
  = List.last (Str.split c y) EmptyString.
Proof.
  induction x as [|a x IH]; rewrite ?append_cons, ?append_nil_l; simpl.
  - rewrite Ascii.eqb_refl. pose proof (split_nonempty c y). by destruct (Str.split c y).
  - destruct (Ascii.eqb a c).
    + pose proof (split_nonempty c (x +:+ String c y)).
      by destruct (Str.split c (x +:+ String c y)).
    + pose proof (split_nonempty c (x +:+ String c y)).
      destruct (Str.split c (x +:+ String c y)) as [|z [|z' zs]] eqn:E; try done.
      (* single element: impossible since the text has a separator *)
      exfalso. clear IH H.
      assert (Hlen : (2 <= List.length (Str.split c (x +:+ String c y)))%nat).
      { clear E. induction x as [|b x IHx]; rewrite ?append_cons, ?append_nil_l; simpl.
        - rewrite Ascii.eqb_refl. pose proof (split_nonempty c y).
          destruct (Str.split c y); [done|simpl; lia].
        - destruct (Ascii.eqb b c); [simpl in *; lia|].
          destruct (Str.split c (x +:+ String c y)); simpl in *; lia. }
      rewrite E in Hlen. simpl in Hlen. lia.
Qed.


Lemma length_append a b : String.length (a +:+ b) = (String.length a + String.length b)%nat.
Proof. induction a; rewrite ?append_cons, ?append_nil_l; simpl; [done|]. by rewrite IHa. Qed.

Lemma take_length_append g r :
  Str.take (String.length (g +:+ r) - String.length r) (g +:+ r) = g.
Proof.
  rewrite length_append. replace (String.length g + String.length r - String.length r)%nat
    with (String.length g) by lia.
  induction g as [|a g IH]; rewrite ?append_cons, ?append_nil_l; simpl.
  - by destruct r.
  - by rewrite IH.
Qed.

Lemma rmatch_Lit_app l k b s caps :
  exists b', rmatch (Lit l) k (Cursor b (l +:+ s)) caps = k (Cursor b' s) caps.
Proof.
  revert b. induction l as [|a l IH]; intros b; rewrite ?append_cons, ?append_nil_l.
  - by exists b.
  - simpl. rewrite Ascii.eqb_refl. apply IH.
Qed.

Lemma rmatch_Lit_inv l k b s caps m :
  rmatch (Lit l) k (Cursor b s) caps = Some m ->
  exists b' s', s = l +:+ s' /\ k (Cursor b' s') caps = Some m.
Proof.
  revert b s. induction l as [|a l IH]; intros b s; simpl.
  - intros H. by exists b, s.
  - destruct s as [|c s]; [done|]. destruct (Ascii.eqb a c) eqn:E; [|done].
    apply Ascii.eqb_eq in E; subst c. intros (b' & s' & -> & Hk)%IH.
    by exists b', s'.
Qed.

Lemma rmatch_Lit_fail l k b s caps :
  Str.startswith s l = false -> rmatch (Lit l) k (Cursor b s) caps = None.
Proof.
  revert b s. induction l as [|a l IH]; intros b s; simpl; [done|].
  destruct s as [|c s]; [done|]. rewrite (Ascii.eqb_sym a c).
  destruct (Ascii.eqb c a); simpl; [apply IH|done].
Qed.

Lemma star_loop_chars p k fuel b s caps :
  (String.length s <= fuel)%nat ->
  star_loop (rmatch (Chars p)) k fuel (Cursor b s) caps = greedy p k b s caps.
Proof.
  revert fuel b. induction s as [|a s IH]; intros fuel b Hfuel.
  - destruct fuel; simpl; done.
  - destruct fuel as [|fuel]; [simpl in Hfuel; lia|]. simpl in *.
    destruct (p a); [|done].
    assert (Hlt : (String.length s <? S (String.length s))%nat = true)
      by (apply Nat.ltb_lt; lia).
    rewrite Hlt. rewrite IH by lia. done.
Qed.

Lemma star_loop_keeps body k fuel :
  (forall k', keeps_captures k' -> keeps_captures (body k')) ->
  keeps_captures k -> keeps_captures (star_loop body k fuel).
Proof.
  intros Hbody Hk. induction fuel as [|fuel IH]; intros c caps m; simpl; [apply Hk|].
  destruct (body _ c caps) as [m'|] eqn:E; simpl.
  - intros [= ->]. revert E. apply Hbody. intros c' caps' m''.
    destruct (_ <? _)%nat; [apply IH|done].
  - apply Hk.
Qed.

Lemma rmatch_keeps r :
  group_free r = true -> forall k, keeps_captures k -> keeps_captures (rmatch r k).
Proof.
  induction r as [p| |r1 IH1 r2 IH2|r1 IH1 r2 IH2|r1 IH1|r1 IH1| |]; simpl; intros Hr k Hk.
  - intros [b s] caps m; simpl. destruct s; [done|]. destruct (p a); [apply Hk|done].
  - done.
  - apply andb_true_iff in Hr as [H1 H2]. apply IH1; [done|]. by apply IH2.
  - apply andb_true_iff in Hr as [H1 H2]. intros c caps m.
    destruct (rmatch r1 k c caps) eqn:E; simpl.
    + intros [= ->]. revert E. by apply IH1.
    + by apply IH2.
  - intros c caps m. apply star_loop_keeps; [|done]. intros k'. by apply IH1.
  - done.
  - intros c caps m. destruct (xorb _ _); [apply Hk|done].
  - intros [b s] caps m; simpl. destruct s as [|a [|a' s]]; [apply Hk| |done].
    destruct (Ascii.eqb a "010"); [apply Hk|done].
Qed.

Lemma tail_k_caps c caps m : tail_k c caps = Some m -> m = caps.
Proof. apply rmatch_keeps; [done|]. apply rmatch_keeps; [done|]. by intros ? ? ? [= ->]. Qed.

Lemma tail_k_end b caps : tail_k (Cursor b EmptyString) caps = Some caps.
Proof. reflexivity. Qed.

Lemma tail_k_slash b caps : tail_k (Cursor b "/") caps = Some caps.
Proof. reflexivity. Qed.

Lemma job_view_re_unfold k :
  rmatch job_view_re k
  = rmatch (Lit "/jobs/view/")
      (rmatch (Group (Plus (NotChar "/"))) (rmatch (Opt (Char "/")) (rmatch EndOfString k))).
Proof. reflexivity. Qed.

Lemma rmatch_group b r0 caps :
  rmatch (Group (Plus (NotChar "/"))) tail_k (Cursor b r0) caps
  = match r0 with
    | String a s => if not_slash a then greedy not_slash (group_k r0) (Some a) s caps
                    else None
    | EmptyString => None
    end.
Proof.
  destruct r0 as [|a s]; simpl; [done|].
  change (negb (Ascii.eqb "/" a)) with (not_slash a).
  destruct (not_slash a) eqn:E; [|done].
  exact (star_loop_chars not_slash (group_k (String a s)) (String.length s) (Some a) s caps
                         (le_n _)).
Qed.

Lemma group_k_at g0 r b :
  group_k (g0 +:+ r) (Cursor b r) [] = tail_k (Cursor b r) [g0].
Proof. unfold group_k. cbn [rest]. by rewrite take_length_append. Qed.

Lemma greedy_hit seg : forall g0 b tail,
  Str.all not_slash seg = true ->
  tail = EmptyString \/ tail = "/" ->
  greedy not_slash (group_k (g0 +:+ seg +:+ tail)) b (seg +:+ tail) [] = Some [g0 +:+ seg].
Proof.
  induction seg as [|a seg IH]; intros g0 b tail Hseg Htail.
  - rewrite append_nil_l, append_nil_r.
    destruct Htail as [-> | ->]; cbn [greedy not_slash]; rewrite ?group_k_at; done.
  - simpl in Hseg. apply andb_true_iff in Hseg as [Ha Hseg].
    rewrite append_cons. cbn [greedy]. rewrite Ha.
    replace (g0 +:+ String a (seg +:+ tail))
      with ((g0 +:+ String a EmptyString) +:+ seg +:+ tail)
      by (by rewrite append_assoc).
    rewrite (IH (g0 +:+ String a EmptyString) (Some a) tail) by done.
    simpl. by rewrite append_assoc.
Qed.

Lemma greedy_inv s : forall g0 b r0 m,
  r0 = g0 +:+ s ->
  greedy not_slash (group_k r0) b s [] = Some m ->
  exists g t, m = [g0 +:+ g] /\ Str.all not_slash g = true /\ s = g +:+ t.
Proof.
  induction s as [|a s IH]; intros g0 b r0 m ->; simpl.
  - rewrite group_k_at. intros ->%tail_k_caps.
    exists EmptyString, EmptyString. by rewrite append_nil_r.
  - assert (Hhere : group_k (g0 +:+ String a s) (Cursor b (String a s)) [] = Some m ->
                    exists g t, m = [g0 +:+ g] /\ Str.all not_slash g = true
                                /\ String a s = g +:+ t).
    { rewrite group_k_at. intros ->%tail_k_caps.
      exists EmptyString, (String a s). by rewrite append_nil_r. }
    destruct (not_slash a) eqn:Ha; [|done].
    destruct (greedy not_slash (group_k (g0 +:+ String a s)) (Some a) s []) as [m'|] eqn:E;
      simpl; [|done].
    intros [= ->].
    apply (IH (g0 +:+ String a EmptyString)) in E as (g & t & -> & Hg & ->).
    + exists (String a g), t. rewrite append_assoc. simpl. by rewrite Ha, Hg.
    + by rewrite append_assoc.
Qed.

Lemma rmatch_job_view_inv b s m :
  rmatch job_view_re accept (Cursor b s) [] = Some m ->
  exists g t, m = [g] /\ g <> EmptyString /\ Str.all not_slash g = true
              /\ s = "/jobs/view/" +:+ g +:+ t.
Proof.
  rewrite job_view_re_unfold. intros (b' & r0 & -> & H)%rmatch_Lit_inv.
  fold tail_k in H. rewrite rmatch_group in H.
  destruct r0 as [|a r]; [done|]. destruct (not_slash a) eqn:Ha; [|done].
  apply (greedy_inv r (String a EmptyString)) in H as (g & t & -> & Hg & ->); [|done].
  exists (String a g), t. split; [done|]. split; [done|].
  split; [simpl; by rewrite Ha, Hg|done].
Qed.

Lemma rmatch_job_view_hit b seg tail :
  seg <> EmptyString -> Str.all not_slash seg = true ->
  tail = EmptyString \/ tail = "/" ->
  rmatch job_view_re accept (Cursor b ("/jobs/view/" +:+ seg +:+ tail)) [] = Some [seg].
Proof.
  intros Hne Hseg Htail. rewrite job_view_re_unfold.
  destruct (rmatch_Lit_app "/jobs/view/"
              (rmatch (Group (Plus (NotChar "/"))) (rmatch (Opt (Char "/")) (rmatch EndOfString accept)))
              b (seg +:+ tail) []) as [b' ->].
  fold tail_k. rewrite rmatch_group.
  destruct seg as [|a seg]; [done|]. rewrite append_cons.
  simpl in Hseg. apply andb_true_iff in Hseg as [Ha Hseg]. rewrite Ha.
  exact (greedy_hit seg (String a EmptyString) (Some a) tail Hseg Htail).
Qed.

Lemma search_from_unfold r b s :
  search_from r b s
  = or_else (rmatch r accept (Cursor b s) [])
            match s with
            | EmptyString => None
            | String a s' => search_from r (Some a) s'
            end.
Proof. by destruct s. Qed.

Lemma search_from_inv s : forall b m,
  search_from job_view_re b s = Some m ->
  exists pre g t, m = [g] /\ g <> EmptyString /\ Str.all not_slash g = true
                  /\ s = pre +:+ "/jobs/view/" +:+ g +:+ t.
Proof.
  induction s as [|a s IH]; intros b m; rewrite search_from_unfold;
    destruct (rmatch job_view_re accept _ []) eqn:E; cbn [or_else];
    try (intros [= ->]; apply rmatch_job_view_inv in E as (g & t & ? & ? & ? & ?);
         by exists EmptyString, g, t).
  intros (pre & g & t & ? & ? & ? & ->)%IH. by exists (String a pre), g, t.
Qed.

Lemma search_from_skip b a s :
  Str.startswith (String a s) "/jobs/view/" = false ->
  search_from job_view_re b (String a s) = search_from job_view_re (Some a) s.
Proof.
  intros H. rewrite search_from_unfold, job_view_re_unfold. by rewrite rmatch_Lit_fail.
Qed.

Lemma search_from_hit r b s m :
  rmatch r accept (Cursor b s) [] = Some m -> search_from r b s = Some m.
Proof. intros H. rewrite search_from_unfold. by rewrite H. Qed.

Lemma search_canonical seg tail :
  seg <> EmptyString -> Str.all not_slash seg = true ->
  tail = EmptyString \/ tail = "/" ->
  search job_view_re ("https://www.linkedin.com/jobs/view/" +:+ seg +:+ tail) = Some [seg].
Proof.
  intros Hne Hseg Htail. unfold search. rewrite !append_cons, append_nil_l.
  do 24 (rewrite search_from_skip by reflexivity).
  apply search_from_hit. by apply rmatch_job_view_hit.
Qed.

Lemma normalize_job_url_unfold url :
  normalize_job_url url
  = canonical_of_base (before_sep "#" (before_sep "?" (with_origin url))).
Proof. reflexivity. Qed.

Lemma with_origin_startswith url : Str.startswith (with_origin url) "/" = false.
Proof.
  unfold with_origin. destruct (Str.startswith url "/") eqn:E; [|done].
  by rewrite !append_cons.
Qed.

Lemma normalize_job_url_base b :
  Str.startswith b "/" = false ->
  Str.all (not_char "?") b = true ->
  Str.all (not_char "#") b = true ->
  normalize_job_url b = canonical_of_base b.
Proof.
  intros H1 H2 H3. rewrite normalize_job_url_unfold. unfold with_origin. rewrite H1.
  by rewrite (before_sep_id "?"), (before_sep_id "#").
Qed.

Lemma isdigit_nonempty s : Str.isdigit s = true -> s <> EmptyString.
Proof. intros H ->. by vm_compute in H. Qed.

Lemma job_id_of_segment_idem s :
  job_id_of_segment (job_id_of_segment s) = job_id_of_segment s.
Proof.
  unfold job_id_of_segment at 2 3.
  destruct (Str.isdigit s) eqn:E1; [unfold job_id_of_segment; by rewrite E1|].
  destruct (negb _ && Str.isdigit (List.last (Str.split "-" s) EmptyString)) eqn:E2.
  - apply andb_true_iff in E2 as [_ E2]. unfold job_id_of_segment. by rewrite E2.
  - unfold job_id_of_segment. by rewrite E1, E2.
Qed.

Lemma job_id_of_segment_all p s :
  Str.all p s = true -> Str.all p (job_id_of_segment s) = true.
Proof.
  intros H. unfold job_id_of_segment. destruct (Str.isdigit s); [done|].
  destruct (negb _ && _); [|done]. by apply last_split_all.
Qed.

Lemma job_id_of_segment_nonempty s :
  s <> EmptyString -> job_id_of_segment s <> EmptyString.
Proof.
  intros H. unfold job_id_of_segment. destruct (Str.isdigit s); [done|].
  destruct (negb _ && Str.isdigit (List.last (Str.split "-" s) EmptyString)) eqn:E; [|done].
  apply andb_true_iff in E as [_ E]. by apply isdigit_nonempty.
Qed.

Lemma contains_canonical x :
  Str.contains "/jobs/view/" ("https://www.linkedin.com/jobs/view/" +:+ x) = true.
Proof. reflexivity. Qed.

(** A canonical URL is a fixed point of the last two steps. *)
Lemma canonical_of_base_canonical id :
  id <> EmptyString -> Str.all not_slash id = true ->
  job_id_of_segment id = id ->
  canonical_of_base ("https://www.linkedin.com/jobs/view/" +:+ id)
  = "https://www.linkedin.com/jobs/view/" +:+ id.
Proof.
  intros Hne Hs Hid. unfold canonical_of_base. rewrite contains_canonical. cbn [negb].
  pose proof (search_canonical id EmptyString Hne Hs (or_introl eq_refl)) as Hsearch.
  rewrite append_nil_r in Hsearch. rewrite Hsearch.
  change (Re.group 1 [id]) with id.
  unfold Str.rstrip. rewrite rstrip_where_id by done. by rewrite Hid.
Qed.

Lemma canonical_of_base_fixed b :
  Str.startswith b "/" = false ->
  Str.all (not_char "?") b = true ->
  Str.all (not_char "#") b = true ->
  normalize_job_url (canonical_of_base b) = canonical_of_base b.
Proof.
  intros H1 H2 H3. unfold canonical_of_base at 1 2.
  destruct (negb (Str.contains "/jobs/view/" b)) eqn:Ec.
  { rewrite normalize_job_url_base by done. unfold canonical_of_base. by rewrite Ec. }
  destruct (Re.search job_view_re b) as [m|] eqn:Es.
  2: { rewrite normalize_job_url_base by done. unfold canonical_of_base. by rewrite Ec, Es. }
  apply search_from_inv in Es as (pre & g & t & -> & Hne & Hg & ->).
  change (Re.group 1 [g]) with g. unfold Str.rstrip. rewrite rstrip_where_id by done.
  rewrite !all_app in H2, H3.
  apply andb_true_iff in H2 as (_ & (_ & (H2 & _)%andb_true_iff)%andb_true_iff).
  apply andb_true_iff in H3 as (_ & (_ & (H3 & _)%andb_true_iff)%andb_true_iff).
  set (id := job_id_of_segment g).
  assert (Hid1 : id <> EmptyString) by by apply job_id_of_segment_nonempty.
  assert (Hid2 : Str.all not_slash id = true) by by apply job_id_of_segment_all.
  assert (Hid3 : job_id_of_segment id = id) by apply job_id_of_segment_idem.
  rewrite normalize_job_url_base.
  - by apply canonical_of_base_canonical.
  - by rewrite !append_cons.
  - rewrite all_app. apply andb_true_iff. split; [done|]. by apply job_id_of_segment_all.
  - rewrite all_app. apply andb_true_iff. split; [done|]. by apply job_id_of_segment_all.
Qed.

(** C9.  [normalize_job_url] is idempotent: for every string [u], canonicalizing
    the canonical form of [u] gives it back, so every output of the
    canonicalizer is a fixed point. *)
Theorem normalize_job_url_idempotent (u : string) :
  normalize_job_url (normalize_job_url u) = normalize_job_url u.
Proof.
  rewrite (normalize_job_url_unfold u). apply canonical_of_base_fixed.
  - rewrite !before_sep_startswith by done. apply with_origin_startswith.
  - apply before_sep_all. apply (before_sep_free "?").
  - apply (before_sep_free "#").
Qed.

Lemma segment_char_not_slash a : segment_char a = true -> not_slash a = true.
Proof.
  unfold segment_char, not_slash. rewrite (Ascii.eqb_sym "/" a).
  by intros [[? _]%andb_true_iff _]%andb_true_iff.
Qed.

Lemma segment_char_not_query a : segment_char a = true -> not_char "?" a = true.
Proof. unfold segment_char, not_char. by intros [[_ ?]%andb_true_iff _]%andb_true_iff. Qed.

Lemma segment_char_not_fragment a : segment_char a = true -> not_char "#" a = true.
Proof. unfold segment_char, not_char. by intros [_ ?]%andb_true_iff. Qed.

Lemma before_delims_suffix x q :
  Str.all (not_char "?") x = true -> Str.all (not_char "#") x = true ->
  query_or_fragment q = true ->
  before_sep "#" (before_sep "?" (x +:+ q)) = x.
Proof.
  intros Hq Hf Hsfx. rewrite (before_sep_app "?") by done.
  rewrite (before_sep_app "#") by done.
  destruct q as [|c q]; [by rewrite append_nil_r|].
  rewrite (before_sep_cons "?"). simpl in Hsfx.
  destruct (Ascii.eqb c "?") eqn:E1; [by rewrite append_nil_r|].
  rewrite (before_sep_cons "#"). simpl in Hsfx. rewrite Hsfx. by rewrite append_nil_r.
Qed.

Lemma with_origin_site_prefix pre rest :
  site_prefix pre ->
  with_origin (pre +:+ "/jobs/view/" +:+ rest) = "https://www.linkedin.com/jobs/view/" +:+ rest.
Proof. by intros [-> | ->]. Qed.

(** Both forms, through every step but the choice of the id. *)
Lemma normalize_job_url_segment pre seg t q :
  site_prefix pre -> seg <> EmptyString -> Str.all segment_char seg = true ->
  trailing_slash t -> query_or_fragment q = true ->
  normalize_job_url (pre +:+ "/jobs/view/" +:+ seg +:+ t +:+ q)
  = "https://www.linkedin.com/jobs/view/" +:+ job_id_of_segment seg.
Proof.
  intros Hpre Hne Hseg Ht Hq. rewrite normalize_job_url_unfold.
  rewrite with_origin_site_prefix by done.
  assert (Hslash : Str.all not_slash seg = true)
    by (revert Hseg; apply all_impl, segment_char_not_slash).
  replace ("https://www.linkedin.com/jobs/view/" +:+ seg +:+ t +:+ q)
    with (("https://www.linkedin.com/jobs/view/" +:+ seg +:+ t) +:+ q)
    by (by rewrite !append_assoc).
  rewrite before_delims_suffix; [| | |done].
  - unfold canonical_of_base. rewrite contains_canonical. cbn [negb].
    rewrite (search_canonical seg t Hne Hslash Ht).
    change (Re.group 1 [seg]) with seg.
    unfold Str.rstrip. by rewrite rstrip_where_id.
  - rewrite !all_app. rewrite (all_impl _ _ _ segment_char_not_query Hseg).
    by destruct Ht as [-> | ->].
  - rewrite !all_app. rewrite (all_impl _ _ _ segment_char_not_fragment Hseg).
    by destruct Ht as [-> | ->].
Qed.

Lemma isdecimal_isdigit s :
  s <> EmptyString -> Str.all Str.isdecimal_char s = true -> Str.isdigit s = true.
Proof.
  intros Hne Hall. unfold Str.isdigit. destruct s; [done|]. cbn [Str.is_empty negb andb].
  revert Hall. apply all_impl. intros x Hx. unfold Str.isdigit_char. by rewrite Hx.
Qed.

Lemma isdecimal_segment_char a : Str.isdecimal_char a = true -> segment_char a = true.
Proof.
  intros Ha. unfold segment_char.
  destruct (Ascii.eqb_spec a "/") as [->|_]; [done|].
  destruct (Ascii.eqb_spec a "?") as [->|_]; [done|].
  by destruct (Ascii.eqb_spec a "#") as [->|_].
Qed.

Lemma isdecimal_not_hyphen a : Str.isdecimal_char a = true -> not_char "-" a = true.
Proof. intros Ha. unfold not_char. by destruct (Ascii.eqb_spec a "-") as [->|_]. Qed.

Lemma job_id_of_numeric id :
  id <> EmptyString -> Str.all Str.isdecimal_char id = true -> job_id_of_segment id = id.
Proof. intros Hne Hid. unfold job_id_of_segment. by rewrite isdecimal_isdigit. Qed.

Lemma job_id_of_slug slug id :
  id <> EmptyString -> Str.all Str.isdecimal_char id = true ->
  job_id_of_segment (slug +:+ "-" +:+ id) = id.
Proof.
  intros Hne Hid. unfold job_id_of_segment.
  assert (Hnd : Str.isdigit (slug +:+ "-" +:+ id) = false).
  { unfold Str.isdigit. rewrite all_app, append_cons. cbn [Str.all].
    replace (Str.isdigit_char "-") with false by done.
    by rewrite andb_false_l, !andb_false_r. }
  rewrite Hnd, append_cons, append_nil_l, last_split_app.
  rewrite (split_free "-" id) by (revert Hid; apply all_impl, isdecimal_not_hyphen).
  cbn [List.last]. rewrite isdecimal_isdigit by done. rewrite andb_true_r.
  pose proof (split_nonempty "-" (slug +:+ String "-" id)) as Hparts.
  by rewrite bool_decide_eq_false_2.
Qed.

(** C2.  For a job id [id] of decimal digits and a slug [slug] (a path segment:
    no slash, question mark or hash), the numeric form [/jobs/view/id] and the
    slug form [/jobs/view/slug-id] of a posting, each relative or under the
    site origin, with or without a trailing slash, followed by nothing or by
    any query string or fragment, both canonicalize to
    [https://www.linkedin.com/jobs/view/id]: no query, no fragment, no
    trailing slash. *)
Theorem normalize_job_url_same_posting (id slug pre1 pre2 t1 t2 q1 q2 : string) :
  id <> EmptyString -> Str.all Str.isdecimal_char id = true ->
  Str.all segment_char slug = true ->
  site_prefix pre1 -> site_prefix pre2 ->
  trailing_slash t1 -> trailing_slash t2 ->
  query_or_fragment q1 = true -> query_or_fragment q2 = true ->
  normalize_job_url (pre1 +:+ "/jobs/view/" +:+ id +:+ t1 +:+ q1)
  = "https://www.linkedin.com/jobs/view/" +:+ id
  /\ normalize_job_url (pre2 +:+ "/jobs/view/" +:+ (slug +:+ "-" +:+ id) +:+ t2 +:+ q2)
     = "https://www.linkedin.com/jobs/view/" +:+ id.
Proof.
  intros Hne Hid Hslug Hp1 Hp2 Ht1 Ht2 Hq1 Hq2.
  assert (Hidseg : Str.all segment_char id = true)
    by (revert Hid; apply all_impl, isdecimal_segment_char).
  split.
  - rewrite normalize_job_url_segment by done. by rewrite job_id_of_numeric.
  - rewrite normalize_job_url_segment; [by rewrite job_id_of_slug|done| | |done..].
    + by destruct slug.
    + rewrite !all_app, Hslug, Hidseg. done.
Qed.

(** C2 on a relative numeric URL with a trailing slash and a query, and on an
    absolute slug URL with a fragment. *)
Lemma normalize_job_url_same_posting_witness :
  normalize_job_url "/jobs/view/4370870454/?position=1&pageNum=0"
  = "https://www.linkedin.com/jobs/view/4370870454"
  /\ normalize_job_url
       "https://www.linkedin.com/jobs/view/senior-engineer-at-acme-4370870454#apply?x"
     = "https://www.linkedin.com/jobs/view/4370870454".
Proof.
  apply (normalize_job_url_same_posting "4370870454" "senior-engineer-at-acme"
           "" "https://www.linkedin.com" "/" "" "?position=1&pageNum=0" "#apply?x");
    first [done | by left | by right].
Defined.

End CanonicalizerFacts.

Section EffectFacts.
Context {P : Platform}.

Lemma bind_unfold {A B} (m : M P A) (f : A -> M P B) st :
  (m ≫= f) st = match m st with
                | (Return a, st') => f a st'
                | (Raise e, st') => (Raise e, st')
                end.
Proof. reflexivity. Qed.

Lemma preserves_files_ret {A} (a : A) : preserves_files (mret a : M P A).
Proof. by intros st. Qed.

Lemma preserves_files_raise {A} e : preserves_files (raise P e : M P A).
Proof. by intros st. Qed.

Lemma preserves_files_bind {A B} (m : M P A) (f : A -> M P B) :
  preserves_files m -> (forall a, preserves_files (f a)) -> preserves_files (m ≫= f).
Proof.
  intros Hm Hf st. rewrite bind_unfold. specialize (Hm st).
  destruct (m st) as [[a|e] st']; simpl in *; [|done]. by rewrite Hf.
Qed.

Lemma preserves_files_try {A} (body handler : M P A) handles :
  preserves_files body -> preserves_files handler ->
  preserves_files (try_except P body handles handler).
Proof.
  intros Hb Hh st. unfold try_except. specialize (Hb st).
  destruct (body st) as [[a|e] st']; simpl in *; [done|].
  destruct (handles e); simpl; [|done]. by rewrite Hh.
Qed.

Lemma preserves_files_lift_net {A} e (f : net P -> option A * net P) :
  preserves_files (lift_net P e f).
Proof. intros st. unfold lift_net. by destruct (f (network P st)) as [[a|] w]. Qed.

Lemma preserves_files_sleep q : preserves_files (sleep P q).
Proof. by intros st. Qed.

Lemma never_raises_ret {A} (a : A) : never_raises (mret a : M P A).
Proof. intros st. by exists a, st. Qed.

Lemma never_raises_bind {A B} (m : M P A) (f : A -> M P B) :
  never_raises m -> (forall a, never_raises (f a)) -> never_raises (m ≫= f).
Proof.
  intros Hm Hf st. rewrite bind_unfold. destruct (Hm st) as (a & st' & ->). apply Hf.
Qed.

Lemma never_raises_try {A} (body handler : M P A) handles :
  only_raises handles body -> never_raises handler ->
  never_raises (try_except P body handles handler).
Proof.
  intros Hb Hh st. unfold try_except. specialize (Hb st).
  destruct (body st) as [[a|e] st']; [by exists a, st'|].
  rewrite (Hb e st' eq_refl). apply Hh.
Qed.

Lemma never_raises_sleep q : never_raises (sleep P q).
Proof. intros st. by eexists _, _. Qed.

Lemma only_raises_never {A} handles (m : M P A) : never_raises m -> only_raises handles m.
Proof. intros Hm st e st' H. destruct (Hm st) as (a & st'' & Ha). congruence. Qed.

Lemma only_raises_bind {A B} handles (m : M P A) (f : A -> M P B) :
  only_raises handles m -> (forall a, only_raises handles (f a)) ->
  only_raises handles (m ≫= f).
Proof.
  intros Hm Hf st e st'. rewrite bind_unfold. specialize (Hm st).
  destruct (m st) as [[a|e'] st'']; [apply Hf|]. intros [= -> ->]. by eapply Hm.
Qed.

Lemma only_raises_raise {A} (handles : exn -> bool) e :
  handles e = true -> only_raises handles (raise P e : M P A).
Proof. by intros H st e' st' [= <- <-]. Qed.

Lemma only_raises_lift_net {A} (handles : exn -> bool) e (f : net P -> option A * net P) :
  handles e = true -> only_raises handles (lift_net P e f).
Proof.
  intros H st e' st'. unfold lift_net. destruct (f (network P st)) as [[a|] w]; [done|].
  by intros [= <- <-].
Qed.

(** *** fetch_page *)

Lemma fetch_page_raises url : only_raises is_RequestException (fetch_page P url).
Proof.
  unfold fetch_page. apply only_raises_bind; [by apply only_raises_lift_net|]. intros resp.
  apply only_raises_bind; [|intros []; apply only_raises_never, never_raises_ret].
  unfold raise_for_status. destruct (_ && _); [by apply only_raises_raise|].
  apply only_raises_never, never_raises_ret.
Qed.

Lemma fetch_page_files url : preserves_files (fetch_page P url).
Proof.
  unfold fetch_page. apply preserves_files_bind; [apply preserves_files_lift_net|]. intros resp.
  apply preserves_files_bind; [|intros []; apply preserves_files_ret].
  unfold raise_for_status. destruct (_ && _); [apply preserves_files_raise|apply preserves_files_ret].
Qed.

(** *** is_company_size_1_to_50 *)

Lemma is_company_size_1_to_50_returns html : never_raises (is_company_size_1_to_50 P html).
Proof.
  unfold is_company_size_1_to_50. destruct (Str.is_empty _); [apply never_raises_ret|].
  apply never_raises_bind.
  - apply never_raises_try; [|apply never_raises_ret].
    apply only_raises_bind; [apply fetch_page_raises|]. intros h.
    apply only_raises_never, never_raises_bind; [apply never_raises_sleep|].
    intros []. apply never_raises_ret.
  - intros [h|]; apply never_raises_ret.
Qed.

Lemma is_company_size_1_to_50_files html : preserves_files (is_company_size_1_to_50 P html).
Proof.
  unfold is_company_size_1_to_50. destruct (Str.is_empty _); [apply preserves_files_ret|].
  apply preserves_files_bind.
  - apply preserves_files_try; [|apply preserves_files_ret].
    apply preserves_files_bind; [apply fetch_page_files|]. intros h.
    apply preserves_files_bind; [apply preserves_files_sleep|]. intros []. apply preserves_files_ret.
  - intros [h|]; apply preserves_files_ret.
Qed.

End EffectFacts.

Section FilterFacts.
Context {P : Platform}.

Lemma filter_step_unfold delay results url st :
  filter_step P delay results url st
  = (Return (results ++ (step_outcome url st).1)%list,
     (sleep P delay (step_outcome url st).2).2).
Proof.
  unfold filter_step, step_outcome. rewrite bind_unfold. unfold try_except at 1.
  rewrite bind_unfold. pose proof (fetch_page_raises url st) as Hraise.
  destruct (fetch_page P url st) as [[html|e] st1].
  - destruct (is_first_party_job P html).
    + rewrite bind_unfold.
      destruct (is_company_size_1_to_50_returns html st1) as (small & st2 & ->).
      destruct small; simpl; by rewrite ?app_nil_r.
    + simpl. by rewrite app_nil_r.
  - rewrite (Hraise e st1 eq_refl). simpl. by rewrite app_nil_r.
Qed.

Lemma step_outcome_urls u (st : state P) :
  (url <$> (step_outcome u st).1) `sublist_of` [u].
Proof.
  unfold step_outcome. destruct (fetch_page P u st) as [[html|e] st1]; simpl;
    [|apply sublist_nil_l].
  destruct (is_first_party_job P html); simpl; [|apply sublist_nil_l].
  destruct (is_company_size_1_to_50 P html st1) as [[[]|] st2]; simpl;
    done || apply sublist_nil_l.
Qed.

Lemma step_outcome_files u (st : state P) : files P (step_outcome u st).2 = files P st.
Proof.
  unfold step_outcome. pose proof (fetch_page_files u st) as Hf.
  destruct (fetch_page P u st) as [[html|e] st1]; simpl in *; [|done].
  destruct (is_first_party_job P html); simpl; [|done].
  pose proof (is_company_size_1_to_50_files html st1) as Hc.
  destruct (is_company_size_1_to_50 P html st1) as [[[]|] st2]; simpl in *; congruence.
Qed.

Lemma filter_loop_returns delay job_urls : forall results st,
  exists new st',
    filter_loop P delay job_urls results st = (Return (results ++ new)%list, st')
    /\ (url <$> new) `sublist_of` job_urls
    /\ files P st' = files P st
    /\ forall results', filter_loop P delay job_urls results' st
                        = (Return (results' ++ new)%list, st').
Proof.
  induction job_urls as [|u job_urls IH]; intros results st.
  - exists [], st. simpl. rewrite app_nil_r. split_and!; try done.
    intros r. by rewrite app_nil_r.
  - cbn [filter_loop]. rewrite bind_unfold, filter_step_unfold.
    destruct (IH (results ++ (step_outcome u st).1)%list
                 (sleep P delay (step_outcome u st).2).2) as (new & st' & Hrun & Hsub & Hfiles & Hany).
    exists ((step_outcome u st).1 ++ new)%list, st'. split_and!.
    + by rewrite Hrun, app_assoc.
    + rewrite fmap_app. change (u :: job_urls) with ([u] ++ job_urls)%list.
      apply sublist_app; [apply step_outcome_urls|done].
    + rewrite Hfiles. simpl. apply step_outcome_files.
    + intros r. rewrite bind_unfold, filter_step_unfold, Hany. by rewrite app_assoc.
Qed.

Lemma filter_first_party_jobs_returns job_urls delay st :
  exists results st',
    filter_first_party_jobs P job_urls delay st = (Return results, st')
    /\ (url <$> results) `sublist_of` job_urls
    /\ files P st' = files P st.
Proof.
  destruct (filter_loop_returns delay job_urls [] st) as (new & st' & Hrun & Hsub & Hf & _).
  by exists new, st'.
Qed.

Lemma filter_first_party_jobs_skips u job_urls delay st e st1 :
  fetch_page P u st = (Raise e, st1) ->
  filter_first_party_jobs P (u :: job_urls) delay st
  = filter_first_party_jobs P job_urls delay (sleep P delay st1).2.
Proof.
  intros Hfetch. unfold filter_first_party_jobs. cbn [filter_loop].
  rewrite bind_unfold, filter_step_unfold. unfold step_outcome. by rewrite Hfetch.
Qed.

Lemma filter_loop_app delay us1 us2 : forall results st,
  filter_loop P delay (us1 ++ us2)%list results st
  = (r1 ← filter_loop P delay us1 results; filter_loop P delay us2 r1) st.
Proof.
  induction us1 as [|u us1 IH]; intros results st; [done|].
  cbn [app filter_loop]. rewrite !bind_unfold, filter_step_unfold. by rewrite IH.
Qed.

Lemma filter_first_party_jobs_app us1 us2 delay st :
  filter_first_party_jobs P (us1 ++ us2)%list delay st
  = (r1 ← filter_first_party_jobs P us1 delay;
     r2 ← filter_first_party_jobs P us2 delay;
     mret (r1 ++ r2)%list) st.
Proof.
  unfold filter_first_party_jobs. rewrite filter_loop_app, !bind_unfold.
  destruct (filter_loop_returns delay us1 [] st) as (r1 & st1 & -> & _). simpl.
  destruct (filter_loop_returns delay us2 [] st1) as (r2 & st2 & H2 & _ & _ & Hany).
  rewrite bind_unfold. by rewrite Hany, H2.
Qed.

(** C7.  Whatever the network answers, [filter_first_party_jobs] returns (no
    exception leaves it) and the URLs of its records are a subsequence of the
    candidate URLs, in their order.  A job page that cannot be fetched only
    drops its own URL: the rest of the list is processed, after the pause,
    from the state the failed fetch left.  The records of a list are those of
    its first part followed by those of the rest, whatever failed in the
    first part. *)
Theorem filter_first_party_jobs_isolates_failures (delay_seconds : Q) :
  (forall job_urls st, exists results st',
      filter_first_party_jobs P job_urls delay_seconds st = (Return results, st')
      /\ (url <$> results) `sublist_of` job_urls)
  /\ (forall u job_urls st e st1,
         fetch_page P u st = (Raise e, st1) ->
         filter_first_party_jobs P (u :: job_urls) delay_seconds st
         = filter_first_party_jobs P job_urls delay_seconds (sleep P delay_seconds st1).2)
  /\ (forall us1 us2 st,
         filter_first_party_jobs P (us1 ++ us2)%list delay_seconds st
         = (r1 ← filter_first_party_jobs P us1 delay_seconds;
            r2 ← filter_first_party_jobs P us2 delay_seconds;
            mret (r1 ++ r2)%list) st).
Proof.
  split_and!.
  - intros job_urls st.
    destruct (filter_first_party_jobs_returns job_urls delay_seconds st)
      as (r & st' & ? & ? & _). by exists r, st'.
  - intros. by eapply filter_first_party_jobs_skips.
  - intros. apply filter_first_party_jobs_app.
Qed.

End FilterFacts.

Section StoreFacts.
Context {P : Platform}.

Lemma load_existing_job_urls_unfold csv_path (st : state P) :
  load_existing_job_urls P csv_path st = (Return (existing_of (files P st !! csv_path)), st).
Proof.
  unfold load_existing_job_urls, try_except, open_read, existing_of. rewrite bind_unfold.
  by destruct (files P st !! csv_path).
Qed.

Lemma add_row_url_mono urls row x : x ∈ urls -> x ∈ add_row_url urls row.
Proof.
  intros Hx. unfold add_row_url. destruct (row !! "job_url") as [[v|]|]; [|done..].
  destruct (negb (Str.is_empty v)); [|done]. set_solver.
Qed.

Lemma foldl_add_row_url_mono rows : forall urls x,
  x ∈ urls -> x ∈ foldl add_row_url urls rows.
Proof.
  induction rows as [|row rows IH]; intros urls x Hx; [done|].
  simpl. by apply IH, add_row_url_mono.
Qed.

Lemma add_row_url_adds urls row v :
  row !! "job_url" = Some (Some v) -> v <> EmptyString ->
  stored_identity v ∈ add_row_url urls row.
Proof.
  intros Hrow Hv. unfold add_row_url, stored_identity. rewrite Hrow.
  destruct v; [done|]. cbn [Str.is_empty negb]. set_solver.
Qed.

Lemma foldl_add_row_url_adds rows : forall urls row v,
  row ∈ rows -> row !! "job_url" = Some (Some v) -> v <> EmptyString ->
  stored_identity v ∈ foldl add_row_url urls rows.
Proof.
  induction rows as [|r rows IH]; intros urls row v Hin Hrow Hv.
  - by apply elem_of_nil in Hin.
  - apply elem_of_cons in Hin as [<- | Hin]; simpl.
    + by apply foldl_add_row_url_mono, add_row_url_adds.
    + by eapply IH.
Qed.

Lemma foldl_insert_None (keys : list string) : forall (d : gmap string (option string)) k v,
  foldl (fun d key => <[key := None]> d) d keys !! k = Some (Some v) ->
  d !! k = Some (Some v).
Proof.
  induction keys as [|key keys IH]; intros d k v; simpl; [done|].
  intros H%IH. destruct (decide (key = k)) as [->|Hne].
  - by rewrite lookup_insert_eq in H.
  - by rewrite lookup_insert_ne in H.
Qed.

Lemma dict_row_nonempty fieldnames row k v :
  dict_row fieldnames row !! k = Some (Some v) -> row <> [].
Proof.
  intros H ->. unfold dict_row in H. rewrite zip_with_nil_r in H. simpl in H.
  apply foldl_insert_None in H. by rewrite lookup_empty in H.
Qed.

Lemma contains_nonempty sub s :
  sub <> EmptyString -> Str.contains sub s = true -> s <> EmptyString.
Proof. intros Hsub H ->. destruct sub; [done|]. by simpl in H. Qed.

Lemma startswith_rstrip_where p sub : forall s,
  sub <> EmptyString -> Str.all (fun a => negb (p a)) sub = true ->
  Str.startswith s sub = true -> Str.startswith (Str.rstrip_where p s) sub = true.
Proof.
  induction sub as [|c sub IH]; intros s Hne Hall Hs; [done|].
  destruct s as [|a s]; [done|]. simpl in Hs, Hall.
  apply andb_true_iff in Hs as [Hac Hs]. apply andb_true_iff in Hall as [Hc Hall].
  apply Ascii.eqb_eq in Hac; subst c. apply negb_true_iff in Hc.
  cbn [Str.rstrip_where]. rewrite Hc, andb_false_r. cbn [Str.startswith].
  rewrite Ascii.eqb_refl. cbn [andb].
  destruct sub as [|c' sub]; [done|]. by apply IH.
Qed.

Lemma contains_rstrip_where p sub : forall s,
  sub <> EmptyString -> Str.all (fun a => negb (p a)) sub = true ->
  Str.contains sub s = true -> Str.contains sub (Str.rstrip_where p s) = true.
Proof.
  intros s Hne Hall. induction s as [|a s IH]; [done|].
  cbn [Str.contains]. intros [Hs | Hs]%orb_true_iff.
  - apply (startswith_rstrip_where p) in Hs; [|done..].
    destruct (Str.rstrip_where p (String a s)); cbn [Str.contains]; by rewrite Hs.
  - specialize (IH Hs). cbn [Str.rstrip_where].
    pose proof (contains_nonempty _ _ Hne IH) as Hr.
    destruct (Str.rstrip_where p s) as [|b r] eqn:E; [done|].
    cbn [Str.is_empty andb Str.contains]. cbn [Str.contains] in IH. rewrite IH.
    by rewrite orb_true_r.
Qed.

Lemma contains_lstrip_where p c sub : forall s,
  p c = false ->
  Str.contains (String c sub) s = true ->
  Str.contains (String c sub) (Str.lstrip_where p s) = true.
Proof.
  intros s Hc. induction s as [|a s IH]; [done|].
  cbn [Str.lstrip_where]. destruct (p a) eqn:Ha; [|done].
  cbn [Str.contains Str.startswith].
  destruct (Ascii.eqb_spec a c) as [->|_]; [congruence|]. cbn [andb orb]. apply IH.
Qed.

Lemma contains_marker_strip v :
  Str.contains "/jobs/view/" v = true -> Str.contains "/jobs/view/" (Str.strip v) = true.
Proof.
  intros H. unfold Str.strip. apply contains_rstrip_where; [done|done|].
  by apply contains_lstrip_where.
Qed.

(** C8.  Loading the dataset from a path with no file returns the empty set,
    without an exception and without a change of state.  When there is a
    file, every record whose [job_url] field contains the job-detail marker
    puts the canonical form of that field (surrounding whitespace stripped)
    into the returned set. *)
Theorem load_existing_job_urls_tolerant (csv_path : string) (st : state P) :
  (files P st !! csv_path = None ->
   load_existing_job_urls P csv_path st = (Return ∅, st))
  /\ (forall fieldnames rows row v,
         files P st !! csv_path = Some (fieldnames :: rows) ->
         row ∈ rows ->
         dict_row fieldnames row !! "job_url" = Some (Some v) ->
         Str.contains "/jobs/view/" v = true ->
         exists urls,
           load_existing_job_urls P csv_path st = (Return urls, st)
           /\ normalize_job_url (Str.strip v) ∈ urls).
Proof.
  split.
  - intros Hnone. by rewrite load_existing_job_urls_unfold, Hnone.
  - intros fieldnames rows row v Hfile Hrow Hfield Hmarker.
    rewrite load_existing_job_urls_unfold, Hfile. eexists; split; [done|].
    unfold existing_of, DictReader.
    assert (Hid : stored_identity v = normalize_job_url (Str.strip v)).
    { unfold stored_identity. by rewrite contains_marker_strip. }
    rewrite <- Hid. apply (foldl_add_row_url_adds _ _ (dict_row fieldnames row)); [|done|].
    + apply list_elem_of_fmap. exists row. split; [done|].
      apply list_elem_of_In, filter_In. split; [by apply list_elem_of_In|].
      apply negb_true_iff, bool_decide_eq_false. by eapply dict_row_nonempty.
    + by apply (contains_nonempty "/jobs/view/").
Qed.

End StoreFacts.

Section DeliveryFacts.
Context {P : Platform}.

Lemma send_job_to_slack_unfold job channel_id token st :
  send_job_to_slack P job channel_id token st
  = if Str.is_empty token || Str.is_empty (default EmptyString channel_id)
    then (Return false, st)
    else let r := slack_call P job (default EmptyString channel_id) token (network P st) in
         (slack_verdict P r.1, State P r.2 (files P st)).
Proof.
  unfold send_job_to_slack, slack_verdict.
  destruct (Str.is_empty token || _); [done|].
  unfold try_except. rewrite bind_unfold. unfold lift_net. fold (slack_call P job (default EmptyString channel_id) token).
  destruct (slack_call P job (default EmptyString channel_id) token (network P st)) as [[resp|] w];
    [|done].
  rewrite bind_unfold. unfold response_json. cbn [fst snd].
  destruct (json_loads P (text resp)) as [data|]; [|done].
  cbn [mret M_ret]. rewrite bind_unfold.
  destruct data; try done. cbn [json_get mret M_ret].
  by destruct (truthy (m !! "ok")).
Qed.



Lemma is_empty_false s : Str.is_empty s = false <-> s <> EmptyString.
Proof. by destruct s. Qed.

(** C3, amended.  [send_job_to_slack] returns [True] exactly when token and
    channel are non-empty, the transport call returned a response (of any
    status code), its payload decodes to a JSON object, and the object's [ok]
    member is truthy.  It returns [False], and raises nothing, when token or
    channel is empty (no call is made), when the transport call raises, when
    the payload does not decode, and when the payload is an object whose [ok]
    is missing or falsy.  Files are never touched. *)
Theorem send_job_to_slack_acknowledged (job : JobResult) (channel_id : option string)
        (token : string) (st : state P) :
  (forall st',
      send_job_to_slack P job channel_id token st = (Return true, st') <->
      token <> EmptyString /\ files P st' = files P st /\
      exists channel resp m,
        channel_id = Some channel /\ channel <> EmptyString
        /\ slack_call P job channel token (network P st) = (Some resp, network P st')
        /\ json_loads P (text resp) = Some (JObj m)
        /\ truthy (m !! "ok") = true)
  /\ (token = EmptyString \/ channel_id = None \/ channel_id = Some EmptyString ->
      send_job_to_slack P job channel_id token st = (Return false, st))
  /\ (forall channel w,
         token <> EmptyString -> channel_id = Some channel -> channel <> EmptyString ->
         slack_call P job channel token (network P st) = (None, w) ->
         send_job_to_slack P job channel_id token st = (Return false, State P w (files P st)))
  /\ (forall channel resp w,
         token <> EmptyString -> channel_id = Some channel -> channel <> EmptyString ->
         slack_call P job channel token (network P st) = (Some resp, w) ->
         json_loads P (text resp) = None ->
         send_job_to_slack P job channel_id token st = (Return false, State P w (files P st)))
  /\ (forall channel resp w m,
         token <> EmptyString -> channel_id = Some channel -> channel <> EmptyString ->
         slack_call P job channel token (network P st) = (Some resp, w) ->
         json_loads P (text resp) = Some (JObj m) ->
         truthy (m !! "ok") = false ->
         send_job_to_slack P job channel_id token st = (Return false, State P w (files P st))).
Proof.
  split_and!.
  - intros st'. rewrite send_job_to_slack_unfold. split.
    + destruct (Str.is_empty token) eqn:Et; cbn [orb]; [done|]. apply is_empty_false in Et.
      destruct channel_id as [channel|]; cbn [default from_option id Str.is_empty]; [|done].
      destruct (Str.is_empty channel) eqn:Ec; [done|]. apply is_empty_false in Ec.
      cbn zeta.
      destruct (slack_call P job channel token (network P st)) as [[resp|] w] eqn:Ecall;
        [|done]. cbn [slack_verdict fst snd].
      destruct (json_loads P (text resp)) as [[| | | | | |m]|] eqn:Ej; try done.
      intros [= Hok <-]. split_and!; [done..|]. by exists channel, resp, m.
    + intros (Ht & Hf & channel & resp & m & -> & Hc & Hcall & Hj & Hok).
      apply is_empty_false in Ht, Hc. cbn [default from_option id]. rewrite Ht, Hc. cbn [orb]. cbn zeta.
      rewrite Hcall. cbn [slack_verdict fst snd]. rewrite Hj, Hok.
      destruct st' as [w' f']. simpl in *. by subst.
  - intros H. rewrite send_job_to_slack_unfold.
    destruct H as [-> | [-> | ->]]; [done|by rewrite orb_true_r..].
  - intros channel w Ht -> Hc Hcall. apply is_empty_false in Ht, Hc.
    rewrite send_job_to_slack_unfold. cbn [default from_option id]. rewrite Ht, Hc. cbn [orb]. cbn zeta.
    by rewrite Hcall.
  - intros channel resp w Ht -> Hc Hcall Hj. apply is_empty_false in Ht, Hc.
    rewrite send_job_to_slack_unfold. cbn [default from_option id]. rewrite Ht, Hc. cbn [orb]. cbn zeta.
    rewrite Hcall. cbn [slack_verdict fst snd]. by rewrite Hj.
  - intros channel resp w m Ht -> Hc Hcall Hj Hok. apply is_empty_false in Ht, Hc.
    rewrite send_job_to_slack_unfold. cbn [default from_option id]. rewrite Ht, Hc. cbn [orb]. cbn zeta.
    rewrite Hcall. cbn [slack_verdict fst snd]. by rewrite Hj, Hok.
Qed.

End DeliveryFacts.

Section CycleFacts.
Context {P : Platform}.

Lemma collect_pages_returns pages : forall urls, never_raises (collect_pages P pages urls).
Proof.
  induction pages as [|page pages IH]; intros urls; cbn [collect_pages];
    [apply never_raises_ret|].
  apply never_raises_bind.
  - apply never_raises_try; [|apply never_raises_ret].
    apply only_raises_bind; [apply fetch_page_raises|]. intros h.
    apply only_raises_never, never_raises_ret.
  - intros [html|]; [|apply never_raises_ret].
    destruct (bool_decide _); [apply never_raises_ret|].
    apply never_raises_bind; [apply never_raises_sleep|]. intros []. apply IH.
Qed.

Lemma collect_pages_files pages : forall urls, preserves_files (collect_pages P pages urls).
Proof.
  induction pages as [|page pages IH]; intros urls; cbn [collect_pages];
    [apply preserves_files_ret|].
  apply preserves_files_bind.
  - apply preserves_files_try; [|apply preserves_files_ret].
    apply preserves_files_bind; [apply fetch_page_files|]. intros h. apply preserves_files_ret.
  - intros [html|]; [|apply preserves_files_ret].
    destruct (bool_decide _); [apply preserves_files_ret|].
    apply preserves_files_bind; [apply preserves_files_sleep|]. intros []. apply IH.
Qed.

Lemma collect_returns limit_pages st :
  exists jobs st',
    collect_recent_remote_engineer_jobs P limit_pages st = (Return jobs, st')
    /\ files P st' = files P st.
Proof.
  unfold collect_recent_remote_engineer_jobs. rewrite bind_unfold.
  destruct (collect_pages_returns (seq 0 limit_pages) ∅ st) as (urls & st1 & Hc).
  pose proof (collect_pages_files (seq 0 limit_pages) ∅ st) as Hf1. rewrite Hc in *.
  destruct (filter_first_party_jobs_returns (Str.sorted (elements urls)) 2 st1)
    as (jobs & st2 & -> & _ & Hf2).
  exists jobs, st2. split; [done|]. by rewrite Hf2.
Qed.





Lemma run_once_unfold (st : state P) :
  run_once P st
  = match collect_recent_remote_engineer_jobs P 1 st with
    | (Return jobs, st1) =>
        match post_new_jobs P (slack_token P)
                (new_jobs_of (existing_of (files P st !! CSV_PATH)) jobs) [] st1 with
        | (Return posted, st2) =>
            if negb (bool_decide (posted = [])) then append_jobs_to_csv P posted CSV_PATH st2
            else (Return tt, st2)
        | (Raise e, st2) => (Raise e, st2)
        end
    | (Raise e, st1) => (Raise e, st1)
    end.
Proof.
  unfold run_once. rewrite bind_unfold, load_existing_job_urls_unfold, bind_unfold.
  destruct (collect_recent_remote_engineer_jobs P 1 st) as [[jobs|e] st1]; [|done].
  rewrite bind_unfold. fold (slack_token P).
  change (List.filter (fun j => bool_decide (url j ∉ existing_of (files P st !! CSV_PATH))) jobs)
    with (new_jobs_of (existing_of (files P st !! CSV_PATH)) jobs).
  destruct (post_new_jobs P (slack_token P) _ [] st1) as [[posted|e] st2]; [|done].
  by destruct (negb (bool_decide (posted = []))).
Qed.

Lemma post_new_jobs_all_fail tok new_jobs :
  tok <> EmptyString ->
  (forall job st, send_job_to_slack P job (SLACK_CHANNEL_ID P) tok st = (Return false, st)) ->
  forall posted st, post_new_jobs P tok new_jobs posted st = (Return posted, st).
Proof.
  intros Htok%is_empty_false Hsend.
  induction new_jobs as [|job new_jobs IH]; intros posted st; cbn [post_new_jobs]; [done|].
  rewrite Htok. cbn [negb]. rewrite bind_unfold, Hsend. apply IH.
Qed.

(** C10.  With a token in the environment and no channel (unset or empty),
    [send_job_to_slack] returns [False] for every job and leaves the state as
    it was: no transport call is made.  The cycle then returns normally in
    the state discovery left, and every file is as before the cycle: nothing
    is persisted, whatever jobs were accepted and new. *)
Theorem run_once_without_channel (st : state P) :
  slack_token P <> EmptyString ->
  SLACK_CHANNEL_ID P = None \/ SLACK_CHANNEL_ID P = Some EmptyString ->
  (forall job token st',
      send_job_to_slack P job (SLACK_CHANNEL_ID P) token st' = (Return false, st'))
  /\ exists jobs st',
      collect_recent_remote_engineer_jobs P 1 st = (Return jobs, st')
      /\ run_once P st = (Return tt, st')
      /\ files P st' = files P st.
Proof.
  intros Htok Hch.
  assert (Hsend : forall job token st',
             send_job_to_slack P job (SLACK_CHANNEL_ID P) token st' = (Return false, st')).
  { intros job token st'. rewrite send_job_to_slack_unfold.
    destruct Hch as [-> | ->]; by rewrite orb_true_r. }
  split; [done|].
  destruct (collect_returns 1 st) as (jobs & st1 & Hcollect & Hfiles).
  exists jobs, st1. split_and!; [done| |done].
  rewrite run_once_unfold, Hcollect.
  by rewrite post_new_jobs_all_fail.
Qed.

End CycleFacts.

Section ClassifierFacts.
Context {P : Platform}.

(** C4.  [_parse_employee_range_from_text] returns [True] exactly when one of
    the in-range patterns matches the text, whatever else matches; when none
    does it returns [False], both when an out-of-range pattern matches and
    when no pattern matches at all. *)
Theorem parse_employee_range_in_range_first (text : string) :
  (_parse_employee_range_from_text text = true <->
   exists pat, pat ∈ in_range_patterns /\ Re.matches pat text = true)
  /\ ((forall pat, pat ∈ in_range_patterns -> Re.matches pat text = false) ->
      (exists pat, pat ∈ out_of_range_patterns /\ Re.matches pat text = true) ->
      _parse_employee_range_from_text text = false)
  /\ ((forall pat, pat ∈ (in_range_patterns ++ out_of_range_patterns)%list ->
                   Re.matches pat text = false) ->
      _parse_employee_range_from_text text = false).
Proof.
  assert (Hiff : _parse_employee_range_from_text text = true <->
                 exists pat, pat ∈ in_range_patterns /\ Re.matches pat text = true).
  { unfold _parse_employee_range_from_text.
    destruct (existsb _ in_range_patterns) eqn:E.
    - split; [intros _|done]. apply existsb_exists in E as (pat & Hin & Hm).
      exists pat. by rewrite list_elem_of_In.
    - split; [by destruct (existsb _ out_of_range_patterns)|].
      intros (pat & Hin%list_elem_of_In & Hm).
      assert (existsb (fun pat => Re.matches pat text) in_range_patterns = true)
        by (apply existsb_exists; eauto).
      congruence. }
  split_and!; [done| |].
  - intros Hnone _. apply not_true_is_false. intros (pat & Hin & Hm)%Hiff.
    rewrite (Hnone pat Hin) in Hm. done.
  - intros Hnone. apply not_true_is_false. intros (pat & Hin & Hm)%Hiff.
    rewrite (Hnone pat) in Hm; [done|]. apply elem_of_app. by left.
Qed.

(** C5.  [is_first_party_job] returns [False] exactly when the job header is
    found and its lower-cased text contains [" via "], or some button or link
    has a lower-cased text that contains ["apply on "] and the name of one of
    the listed job boards; otherwise it returns [True].  Without a header the
    result is decided by the buttons and links alone. *)
Theorem is_first_party_job_signals (html : string) :
  let soup := BeautifulSoup P html in
  let apply_buttons := (Soup.find_all soup "button" Soup.any
                        ++ Soup.find_all soup "a" Soup.any)%list in
  (is_first_party_job P html = false <->
   (exists header, job_header soup = Some header
                   /\ Str.contains " via " (Str.lower (Soup.get_text header)) = true)
   \/ (exists el board, el ∈ apply_buttons /\ board ∈ THIRD_PARTY_KEYWORDS
                        /\ Str.contains "apply on " (Str.lower (Soup.get_text el)) = true
                        /\ Str.contains board (Str.lower (Soup.get_text el)) = true))
  /\ (job_header soup = None ->
      is_first_party_job P html
      = negb (existsb (fun el => third_party_label (Str.lower (Soup.get_text el)))
                      apply_buttons)).
Proof.
  intros soup apply_buttons.
  assert (Hlabel : existsb (fun el => third_party_label (Str.lower (Soup.get_text el)))
                           apply_buttons = true <->
                   exists el board, el ∈ apply_buttons /\ board ∈ THIRD_PARTY_KEYWORDS
                        /\ Str.contains "apply on " (Str.lower (Soup.get_text el)) = true
                        /\ Str.contains board (Str.lower (Soup.get_text el)) = true).
  { rewrite existsb_exists. split.
    - intros (el & Hel & [Happly (board & Hb & Hboard)%existsb_exists]%andb_true_iff).
      exists el, board. by rewrite !list_elem_of_In.
    - intros (el & board & Hel & Hb & Happly & Hboard). exists el.
      split; [by apply list_elem_of_In|]. unfold third_party_label. rewrite Happly.
      apply existsb_exists. exists board. by rewrite <- list_elem_of_In. }
  split.
  - unfold is_first_party_job. fold soup. fold apply_buttons.
    destruct (job_header soup) as [header|].
    + destruct (Str.contains " via " (Str.lower (Soup.get_text header))) eqn:Evia.
      * split; [intros _|done]. left. by exists header.
      * destruct (existsb _ apply_buttons) eqn:E.
        -- split; [intros _|done]. right. by apply Hlabel.
        -- split; [done|]. intros [(h & [= <-] & Hvia)|H%Hlabel]; congruence.
    + destruct (existsb _ apply_buttons) eqn:E.
      * split; [intros _|done]. right. by apply Hlabel.
      * split; [done|]. intros [(h & ? & _)|H%Hlabel]; congruence.
  - intros Hnone. unfold is_first_party_job. fold soup. fold apply_buttons.
    rewrite Hnone. by destruct (existsb _ apply_buttons).
Qed.

End ClassifierFacts.

(** * The claims on examples *)

(** C4 on the three texts of the specification. *)
Lemma parse_employee_range_in_range_first_witness :
  _parse_employee_range_from_text "Company size 11-50 employees" = true
  /\ _parse_employee_range_from_text "201-500 employees" = false
  /\ _parse_employee_range_from_text "Acme builds anvils." = false.
Proof.
  split_and!.
  - apply (proj1 (parse_employee_range_in_range_first "Company size 11-50 employees")).
    exists (employees_range "11" "50"). split; [|by vm_compute].
    unfold in_range_patterns. apply elem_of_cons. right. apply elem_of_cons. by left.
  - apply (proj1 (proj2 (parse_employee_range_in_range_first "201-500 employees"))).
    + intros pat Hin. repeat (apply elem_of_cons in Hin as [-> | Hin]; [by vm_compute|]).
      by apply elem_of_nil in Hin.
    + exists (employees_range "201" "500"). split; [|by vm_compute].
      unfold out_of_range_patterns. apply elem_of_cons. right. apply elem_of_cons. by left.
  - apply (proj2 (proj2 (parse_employee_range_in_range_first "Acme builds anvils."))).
    intros pat Hin. unfold in_range_patterns, out_of_range_patterns in Hin. cbn [app] in Hin.
    repeat (apply elem_of_cons in Hin as [-> | Hin]; [by vm_compute|]).
    by apply elem_of_nil in Hin.
Defined.

(** C5 on a header with a "via" source, on an apply button of a job board, and
    on a first-party page. *)
Lemma is_first_party_job_signals_witness :
  is_first_party_job classifier_platform "via" = false
  /\ is_first_party_job classifier_platform "indeed" = false
  /\ is_first_party_job classifier_platform "job" = true.
Proof.
  split_and!.
  - apply (proj1 (@is_first_party_job_signals classifier_platform "via")).
    left. eexists. split; [by vm_compute|by vm_compute].
  - apply (proj1 (@is_first_party_job_signals classifier_platform "indeed")).
    right. exists (button "Apply on Indeed"), "indeed". split_and!.
    + apply elem_of_app. left. vm_compute. by left.
    + by left.
    + by vm_compute.
    + by vm_compute.
  - by vm_compute.
Defined.

(** C7 with a network that answers nothing: the first URL is skipped, the
    second is still tried, and the pipeline returns the empty list. *)
Lemma filter_first_party_jobs_isolates_failures_witness :
  filter_first_party_jobs offline_platform ["a"; "b"] 2 (start offline_platform 0%nat ∅)
  = filter_first_party_jobs offline_platform ["b"] 2 (start offline_platform 0%nat ∅)
  /\ filter_first_party_jobs offline_platform ["a"; "b"] 2 (start offline_platform 0%nat ∅)
     = (Return [], start offline_platform 0%nat ∅).
Proof.
  split; [|by vm_compute].
  exact (proj1 (proj2 (@filter_first_party_jobs_isolates_failures offline_platform 2))
           "a" ["b"] (start offline_platform 0%nat ∅) ConnectionError
           (start offline_platform 0%nat ∅) eq_refl).
Defined.

(** C8 on a missing file and on a store with a raw, relative, padded URL. *)
Lemma load_existing_job_urls_tolerant_witness :
  load_existing_job_urls array_answer_platform CSV_PATH (start array_answer_platform 0%nat ∅)
  = (Return ∅, start array_answer_platform 0%nat ∅)
  /\ exists urls,
      load_existing_job_urls array_answer_platform CSV_PATH
        (start array_answer_platform 0%nat legacy_store)
      = (Return urls, start array_answer_platform 0%nat legacy_store)
      /\ "https://www.linkedin.com/jobs/view/1" ∈ urls.
Proof.
  split.
  - by apply (proj1 (@load_existing_job_urls_tolerant array_answer_platform CSV_PATH
                       (start array_answer_platform 0%nat ∅))).
  - destruct (proj2 (@load_existing_job_urls_tolerant array_answer_platform CSV_PATH
                       (start array_answer_platform 0%nat legacy_store))
                ["company"; "job_url"]
                [["Acme"; " /jobs/view/engineer-at-acme-1?position=3 "]]
                ["Acme"; " /jobs/view/engineer-at-acme-1?position=3 "]
                " /jobs/view/engineer-at-acme-1?position=3 ") as (urls & Hload & Hin).
    + by vm_compute.
    + by left.
    + by vm_compute.
    + by vm_compute.
    + exists urls. split; [done|].
      replace "https://www.linkedin.com/jobs/view/1"
        with (normalize_job_url (Str.strip " /jobs/view/engineer-at-acme-1?position=3 "))
        by (by vm_compute).
      done.
Defined.

(** C10 on a platform with a token, no channel and two accepted new jobs. *)
Lemma run_once_without_channel_witness :
  run_once no_channel_platform (start no_channel_platform 0%nat ∅)
  = (Return tt, start no_channel_platform 0%nat ∅)
  /\ (collect_recent_remote_engineer_jobs no_channel_platform 1
        (start no_channel_platform 0%nat ∅)).1
     = Return [acme_job "https://www.linkedin.com/jobs/view/1";
               acme_job "https://www.linkedin.com/jobs/view/2"].
Proof.
  destruct (proj2 (@run_once_without_channel no_channel_platform
                     (start no_channel_platform 0%nat ∅)
                     ltac:(vm_compute; discriminate) (or_introl eq_refl)))
    as (jobs & st' & Hcollect & Hrun & _).
  assert (Heval : collect_recent_remote_engineer_jobs no_channel_platform 1
                    (start no_channel_platform 0%nat ∅)
                  = (Return [acme_job "https://www.linkedin.com/jobs/view/1";
                             acme_job "https://www.linkedin.com/jobs/view/2"],
                     start no_channel_platform 0%nat ∅))
    by (vm_compute; reflexivity).
  rewrite Heval in Hcollect. injection Hcollect as <- <-.
  split; [exact Hrun|]. rewrite Heval. reflexivity.
Defined.

(** C3, amended, on a channel that answers [{"ok": false, ...}]. *)
Lemma send_job_to_slack_acknowledged_witness :
  send_job_to_slack refusing_platform (acme_job "https://www.linkedin.com/jobs/view/1")
    (Some "C1") "xoxb-1" (start refusing_platform 0%nat ∅)
  = (Return false, start refusing_platform 1%nat ∅).
Proof.
  apply (proj2 (proj2 (proj2 (proj2
           (@send_job_to_slack_acknowledged refusing_platform
              (acme_job "https://www.linkedin.com/jobs/view/1") (Some "C1") "xoxb-1"
              (start refusing_platform 0%nat ∅)))))
         "C1" {| status_code := 200; text := "error" |} 1%nat
         {[ "ok" := JBool false; "error" := JStr "channel_not_found" ]});
    done.
Defined.

(** C3 as stated fails.  An answer with status 500 and the payload
    [{"ok": true}] counts as delivered: [send_job_to_slack] returns [True].
    An answer whose payload is a JSON array makes it raise [AttributeError]. *)
Lemma send_job_to_slack_ignores_status :
  (slack_call status_500_platform (acme_job "https://www.linkedin.com/jobs/view/1")
     "C1" "xoxb-1" 0%nat).1
  = Some {| status_code := 500; text := "ok" |}
  /\ send_job_to_slack status_500_platform (acme_job "https://www.linkedin.com/jobs/view/1")
       (Some "C1") "xoxb-1" (start status_500_platform 0%nat ∅)
     = (Return true, start status_500_platform 1%nat ∅)
  /\ send_job_to_slack array_answer_platform (acme_job "https://www.linkedin.com/jobs/view/2")
       (Some "C1") "xoxb-1" (start array_answer_platform 1%nat ∅)
     = (Raise AttributeError, start array_answer_platform 2%nat ∅).
Proof. split_and!; by vm_compute. Qed.

(** C1 fails on this cycle.  Two jobs are accepted and new; the channel
    acknowledges the first and answers the second with a JSON array.
    [send_job_to_slack] raises on the second, [run_once] ends with that
    exception, and the store stays without a file: the first job was
    delivered and is not persisted. *)
Theorem run_once_aborts_after_delivery :
  let P := array_answer_platform in
  let job1 := acme_job "https://www.linkedin.com/jobs/view/1" in
  let job2 := acme_job "https://www.linkedin.com/jobs/view/2" in
  collect_recent_remote_engineer_jobs P 1 (start P 0%nat ∅)
  = (Return [job1; job2], start P 0%nat ∅)
  /\ send_job_to_slack P job1 (SLACK_CHANNEL_ID P) (slack_token P) (start P 0%nat ∅)
     = (Return true, start P 1%nat ∅)
  /\ send_job_to_slack P job2 (SLACK_CHANNEL_ID P) (slack_token P) (start P 1%nat ∅)
     = (Raise AttributeError, start P 2%nat ∅)
  /\ run_once P (start P 0%nat ∅) = (Raise AttributeError, start P 2%nat ∅).
Proof. split_and!; by vm_compute. Qed.

(** C6 fails on this discovery result.  The search page links
    [/jobs/view/123 ] (a space after the id), which the canonicalizer keeps;
    no token is set.  The first cycle creates the store with the job's row;
    the second cycle, with the same discovery result, appends the row
    again. *)
Theorem run_once_twice_appends_again :
  let P := trailing_space_platform in
  let job := acme_job "https://www.linkedin.com/jobs/view/123 " in
  let once := [["company"; "job_url"]; [company_name job; url job]] in
  let twice := (once ++ [[company_name job; url job]])%list in
  slack_token P = EmptyString
  /\ normalize_job_url "/jobs/view/123 " = url job
  /\ (forall st, collect_recent_remote_engineer_jobs P 1 st = (Return [job], st))
  /\ run_once P (start P 0%nat ∅) = (Return tt, start P 0%nat {[ CSV_PATH := once ]})
  /\ run_once P (start P 0%nat {[ CSV_PATH := once ]})
     = (Return tt, start P 0%nat {[ CSV_PATH := twice ]}).
Proof.
  split_and!; try by vm_compute.
  intros [w f]. unfold collect_recent_remote_engineer_jobs. by vm_compute.
Qed.

(** The same with a store whose header names the columns in the other order. *)
Lemma run_once_twice_other_header :
  let P := no_notifier_platform in
  let rows := [["Acme"; "https://www.linkedin.com/jobs/view/1"];
               ["Acme"; "https://www.linkedin.com/jobs/view/2"]] in
  let st1 := (run_once P (start P 0%nat {[ CSV_PATH := [["job_url"; "company"]] ]})).2 in
  let st2 := (run_once P st1).2 in
  files P st1 !! CSV_PATH = Some ([["job_url"; "company"]] ++ rows)%list
  /\ files P st2 !! CSV_PATH = Some ([["job_url"; "company"]] ++ rows ++ rows)%list.
Proof. split; by vm_compute. Qed.

(** * Further properties of the code *)

Section CoordinatorFacts.
Context {P : Platform}.









End CoordinatorFacts.

Section OtherUrls.

Lemma startswith_before_sep (m : string) c : forall s,
  Str.all (not_char c) m = true ->
  Str.startswith (before_sep c s) m = Str.startswith s m.
Proof.
  induction m as [|x m IH]; intros s Hm; [done|].
  cbn [Str.all] in Hm. apply andb_true_iff in Hm as [Hx Hm].
  destruct s as [|a s]; [done|]. rewrite before_sep_cons.
  destruct (Ascii.eqb a c) eqn:E.
  - apply Ascii.eqb_eq in E; subst a. cbn [Str.startswith].
    unfold not_char in Hx. apply negb_true_iff in Hx.
    rewrite (Ascii.eqb_sym c x), Hx. done.
  - cbn [Str.startswith]. by rewrite IH.
Qed.

Lemma contains_before_sep (m : string) c : forall s,
  m <> EmptyString -> Str.all (not_char c) m = true ->
  Str.contains m (before_sep c s) = true -> Str.contains m s = true.
Proof.
  intros s Hne Hm. induction s as [|a s IH]; [done|].
  rewrite before_sep_cons. destruct (Ascii.eqb a c) eqn:E.
  - intros H. by apply contains_nonempty in H.
  - assert (Hb : before_sep c (String a s) = String a (before_sep c s))
      by (by rewrite before_sep_cons, E).
    cbn [Str.contains]. rewrite <- Hb, startswith_before_sep by done.
    intros [H | H]%orb_true_iff; apply orb_true_iff; [by left|right; by apply IH].
Qed.

Lemma contains_with_origin u :
  Str.contains "/jobs/view/" (with_origin u) = Str.contains "/jobs/view/" u.
Proof. unfold with_origin. destruct (Str.startswith u "/"); reflexivity. Qed.

(** X3.  A URL without the job-detail marker is only stripped: the site
    origin is put before a leading slash and everything from the first
    question mark or hash on is dropped; the result has no query and no
    fragment. *)
Theorem normalize_job_url_other_urls (u : string) :
  Str.contains "/jobs/view/" u = false ->
  normalize_job_url u = before_sep "#" (before_sep "?" (with_origin u))
  /\ Str.all (not_char "?") (normalize_job_url u) = true
  /\ Str.all (not_char "#") (normalize_job_url u) = true.
Proof.
  intros Hu. rewrite normalize_job_url_unfold. unfold canonical_of_base.
  destruct (Str.contains "/jobs/view/" (before_sep "#" (before_sep "?" (with_origin u))))
    eqn:E.
  - do 2 (apply contains_before_sep in E; [|done..]).
    rewrite contains_with_origin in E. congruence.
  - cbn [negb]. split_and!; [done| |apply (before_sep_free "#")].
    apply before_sep_all, (before_sep_free "?").
Qed.

End OtherUrls.

(** X3 on the search URL. *)
Lemma normalize_job_url_other_urls_witness :
  normalize_job_url "/jobs/search/?keywords=engineer#top"
  = "https://www.linkedin.com/jobs/search/".
Proof.
  rewrite (proj1 (normalize_job_url_other_urls "/jobs/search/?keywords=engineer#top" eq_refl)).
  vm_compute. reflexivity.
Defined.



Section PhraseFacts.
Import Re.

Lemma or_else_Some_r a m : or_else a (Some m) <> None.
Proof. by destruct a. Qed.

Lemma search_from_app r s pre : forall b,
  rmatch r accept (Cursor (before_of pre b) s) [] <> None ->
  search_from r b (pre +:+ s) <> None.
Proof.
  induction pre as [|a pre IH]; intros b H; rewrite ?append_cons, ?append_nil_l,
    search_from_unfold.
  - cbn [before_of] in H. by destruct (rmatch r accept (Cursor b s) []).
  - specialize (IH (Some a) H).
    destruct (search_from r (Some a) (pre +:+ s)) as [m|]; [|done]. apply or_else_Some_r.
Qed.

Lemma step_boundary k b s caps :
  xorb (is_word b) (is_word (head_char s)) = true ->
  rmatch WordBoundary k (Cursor b s) caps = k (Cursor b s) caps.
Proof. intros H. cbn [rmatch before rest]. by rewrite H. Qed.

Lemma step_chars p k b a s caps :
  p a = true -> rmatch (Chars p) k (Cursor b (String a s)) caps = k (Cursor (Some a) s) caps.
Proof. intros H. cbn [rmatch rest]. by rewrite H. Qed.

Lemma step_star_stop p k b a s caps :
  p a = false ->
  rmatch (Star (Chars p)) k (Cursor b (String a s)) caps = k (Cursor b (String a s)) caps.
Proof.
  intros H.
  change (rmatch (Star (Chars p)) k (Cursor b (String a s)) caps)
    with (star_loop (rmatch (Chars p)) k (String.length (String a s))
            (Cursor b (String a s)) caps).
  rewrite star_loop_chars by done. cbn [greedy]. by rewrite H.
Qed.

Lemma step_seq r1 r2 k : rmatch (Seq r1 r2) k = rmatch r1 (rmatch r2 k).
Proof. reflexivity. Qed.

Lemma step_empty k : rmatch Empty k = k.
Proof. reflexivity. Qed.

Lemma step_opt_taken r k c caps :
  rmatch r k c caps <> None -> rmatch (Opt r) k c caps <> None.
Proof. intros H. cbn [Opt rmatch]. by destruct (rmatch r k c caps). Qed.

Lemma step_opt_skipped r k c caps :
  k c caps <> None -> rmatch (Opt r) k c caps <> None.
Proof.
  intros H. cbn [Opt rmatch]. destruct (rmatch r k c caps); [done|]. by destruct (k c caps).
Qed.

Lemma accept_Some c caps : accept c caps <> None.
Proof. done. Qed.

Ltac regex_step :=
  first
    [ progress unfold CharI, Char, Plus, ws
    | rewrite step_seq
    | rewrite step_empty
    | rewrite step_chars by reflexivity
    | rewrite step_star_stop by reflexivity
    | rewrite step_boundary
        by (repeat match goal with H : is_word _ = false |- _ => rewrite H end; reflexivity)
    ].

Lemma in_range_phrase_matches pre phrase post :
  phrase ∈ in_range_phrases ->
  is_word (before_of pre None) = false ->
  is_word (head_char post) = false ->
  exists pat, pat ∈ in_range_patterns /\ matches pat (pre +:+ phrase +:+ post) = true.
Proof.
  intros Hphrase Hb Hp.
  assert (Hany : forall pat,
             rmatch pat accept (Cursor (before_of pre None) (phrase +:+ post)) [] <> None ->
             matches pat (pre +:+ phrase +:+ post) = true).
  { intros pat H. unfold matches, search.
    pose proof (search_from_app pat (phrase +:+ post) pre None H) as Hs.
    by destruct (search_from pat None (pre +:+ phrase +:+ post)). }
  unfold in_range_phrases in Hphrase.
  repeat (apply elem_of_cons in Hphrase as [-> | Hphrase]);
    [exists (employees_range "1" "10") | exists (employees_range "11" "50")
     | exists (Cat [WordBoundary; LitI "1"; Plus ws; LitI "employee"; WordBoundary])
     | exists (employees_range "2" "10") | by apply elem_of_nil in Hphrase].
  all: split; [unfold in_range_patterns; repeat first [by left | right]|].
  all: apply Hany; rewrite !append_cons, append_nil_l.
  all: unfold employees_range; cbn [Cat LitI Plus CharI Char ws].
  all: repeat regex_step.
  all: try (apply step_opt_taken; repeat regex_step).
  all: try apply accept_Some.
Qed.

(** X4.  A text in which one of the phrases [1-10 employees],
    [11-50 employees], [1 employee], [2-10 employees] stands between
    non-word characters (or the ends of the text) is in range:
    [_parse_employee_range_from_text] returns [True], whatever else the text
    contains. *)
Theorem parse_employee_range_finds_phrase (pre phrase post : string) :
  phrase ∈ in_range_phrases ->
  is_word (before_of pre None) = false ->
  is_word (head_char post) = false ->
  _parse_employee_range_from_text (pre +:+ phrase +:+ post) = true.
Proof.
  intros Hphrase Hb Hp.
  destruct (in_range_phrase_matches pre phrase post Hphrase Hb Hp) as (pat & Hin & Hm).
  unfold _parse_employee_range_from_text.
  replace (existsb (fun pat => matches pat (pre +:+ phrase +:+ post)) in_range_patterns)
    with true; [done|].
  symmetry. apply existsb_exists. exists pat. by rewrite <- list_elem_of_In.
Qed.

End PhraseFacts.

(** X4 on a company page's text. *)
Lemma parse_employee_range_finds_phrase_witness :
  _parse_employee_range_from_text "Acme builds anvils. 11-50 employees. Founded 1949" = true.
Proof.
  apply (parse_employee_range_finds_phrase "Acme builds anvils. " "11-50 employees"
           ". Founded 1949").
  - right. by left.
  - vm_compute. reflexivity.
  - vm_compute. reflexivity.
Defined.

Section SortedFacts.

Lemma leb_total a : forall b, Str.leb a b = true \/ Str.leb b a = true.
Proof.
  induction a as [|x a IH]; intros [|y b]; cbn [Str.leb]; auto.
  destruct (N.ltb_spec (Str.code x) (Str.code y)); [by left|].
  destruct (N.ltb_spec (Str.code y) (Str.code x)); [by right|]. apply IH.
Qed.

Lemma leb_cons x a y b :
  Str.leb (String x a) (String y b) = true <->
  (Str.code x < Str.code y)%N \/ (Str.code x = Str.code y /\ Str.leb a b = true).
Proof.
  cbn [Str.leb]. destruct (N.ltb_spec (Str.code x) (Str.code y)); [by split; [left|]|].
  destruct (N.ltb_spec (Str.code y) (Str.code x)).
  - split; [done|]. intros [?|[? _]]; lia.
  - split; [right; split; [lia|done]|]. intros [?|[_ ?]]; [lia|done].
Qed.

Lemma leb_trans a : forall b c,
  Str.leb a b = true -> Str.leb b c = true -> Str.leb a c = true.
Proof.
  induction a as [|x a IH]; intros [|y b] [|z c]; try done.
  rewrite !leb_cons. intros [Hxy | [Hxy Hab]] [Hyz | [Hyz Hbc]].
  - left. lia.
  - left. lia.
  - left. lia.
  - right. split; [lia|]. by eapply IH.
Qed.

Lemma insert_sorted_perm x l : Str.insert_sorted x l ≡ₚ x :: l.
Proof.
  induction l as [|y l IH]; cbn [Str.insert_sorted]; [done|].
  destruct (Str.leb x y); [done|]. rewrite IH. apply Permutation_swap.
Qed.

Lemma sorted_perm l : Str.sorted l ≡ₚ l.
Proof.
  unfold Str.sorted. induction l as [|x l IH]; cbn [foldr]; [done|].
  by rewrite insert_sorted_perm, IH.
Qed.

Lemma insert_sorted_sorted x l :
  StronglySorted (fun a b => Str.leb a b = true) l ->
  StronglySorted (fun a b => Str.leb a b = true) (Str.insert_sorted x l).
Proof.
  induction 1 as [|y l Hl IH Hy]; cbn [Str.insert_sorted]; [by repeat constructor|].
  destruct (Str.leb x y) eqn:E.
  - constructor; [by constructor|]. constructor; [done|].
    eapply Forall_impl; [exact Hy|]. intros z Hz. by eapply leb_trans.
  - constructor; [done|]. rewrite insert_sorted_perm. constructor; [|done].
    destruct (leb_total x y); congruence.
Qed.

Lemma sorted_sorted l : StronglySorted (fun a b => Str.leb a b = true) (Str.sorted l).
Proof.
  unfold Str.sorted. induction l as [|x l IH]; cbn [foldr]; [constructor|].
  by apply insert_sorted_sorted.
Qed.

Lemma sublist_strongly_sorted {A} (R : A -> A -> Prop) (l1 l2 : list A) :
  l1 `sublist_of` l2 -> StronglySorted R l2 -> StronglySorted R l1.
Proof.
  induction 1 as [|x l1 l2 Hsub IH|x l1 l2 Hsub IH]; intros Hs; [done| |].
  - apply StronglySorted_inv in Hs as [Hs Hx]. constructor; [by apply IH|].
    apply Forall_forall. intros z Hz. rewrite Forall_forall in Hx. apply Hx.
    by eapply elem_of_sublist.
  - apply StronglySorted_inv in Hs as [Hs _]. by apply IH.
Qed.

End SortedFacts.

Section DiscoveryFacts.
Context {P : Platform}.

Lemma base_facts href :
  let base := before_sep "#" (before_sep "?" (with_origin href)) in
  Str.startswith base "/" = false
  /\ Str.all (not_char "?") base = true
  /\ Str.all (not_char "#") base = true.
Proof.
  cbn zeta. split_and!.
  - rewrite !before_sep_startswith by done. apply with_origin_startswith.
  - apply before_sep_all, (before_sep_free "?").
  - apply (before_sep_free "#").
Qed.

Lemma canonical_of_base_contains b :
  Str.contains "/jobs/view/" b = true ->
  Str.contains "/jobs/view/" (canonical_of_base b) = true.
Proof.
  intros Hb. unfold canonical_of_base. rewrite Hb. cbn [negb].
  destruct (Re.search job_view_re b); [apply contains_canonical|done].
Qed.

Lemma job_link_canonical href x :
  job_link href = Some x -> x = normalize_job_url href /\ canonical_job_url x.
Proof.
  unfold job_link. destruct (Str.contains "/jobs/view/" href); [|done].
  cbn zeta. destruct (Str.contains "/jobs/view/" _) eqn:E; [|done]. intros [= <-].
  destruct (base_facts href) as (H1 & H2 & H3). cbn zeta in *.
  rewrite normalize_job_url_base by done. split; [by rewrite normalize_job_url_unfold|].
  split; [by apply canonical_of_base_contains|by apply canonical_of_base_fixed].
Qed.

Lemma elem_of_links anchors : forall (acc : gset string) x,
  x ∈ foldl (fun (links : gset string) a =>
               match job_link (Soup.get a "href") with
               | Some l => links ∪ {[l]}
               | None => links
               end) acc anchors
  <-> x ∈ acc \/ exists a, a ∈ anchors /\ job_link (Soup.get a "href") = Some x.
Proof.
  induction anchors as [|a anchors IH]; intros acc x; cbn [foldl].
  - split; [by left|]. intros [?|(a & Ha & _)]; [done|]. by apply elem_of_nil in Ha.
  - rewrite IH. split.
    + intros [Hx | (a' & Ha' & Hl)]; [|right; exists a'; split; [by right|done]].
      destruct (job_link (Soup.get a "href")) as [l|] eqn:El; [|by left].
      apply elem_of_union in Hx as [Hx | ->%elem_of_singleton]; [by left|].
      right. exists a. split; [by left|done].
    + intros [Hx | (a' & [-> | Ha']%elem_of_cons & Hl)].
      * left. destruct (job_link (Soup.get a "href")); set_solver.
      * left. rewrite Hl. set_solver.
      * right. by exists a'.
Qed.

Lemma parse_job_links_from_search_unfold html :
  parse_job_links_from_search P html
  = Str.sorted (elements
      (foldl (fun (links : gset string) a =>
                match job_link (Soup.get a "href") with
                | Some l => links ∪ {[l]}
                | None => links
                end) ∅
             (Soup.find_all (BeautifulSoup P html) "a" (Soup.has_attr "href")))).
Proof.
  unfold parse_job_links_from_search. f_equal. f_equal.
  generalize (∅ : gset string).
  induction (Soup.find_all (BeautifulSoup P html) "a" (Soup.has_attr "href")) as [|a l IH];
    intros acc; [done|].
  cbn [foldl]. rewrite <- IH. f_equal. unfold job_link, with_origin, before_sep.
  destruct (Str.contains "/jobs/view/" (Soup.get a "href")); [|done].
  cbn zeta. by destruct (Str.contains "/jobs/view/" _).
Qed.

Lemma elem_of_parse_job_links_from_search html x :
  x ∈ parse_job_links_from_search P html
  <-> exists a, a ∈ Soup.find_all (BeautifulSoup P html) "a" (Soup.has_attr "href")
                /\ job_link (Soup.get a "href") = Some x.
Proof.
  rewrite parse_job_links_from_search_unfold, sorted_perm, elem_of_elements, elem_of_links.
  set_solver.
Qed.

Lemma parse_job_links_from_search_canonical html x :
  x ∈ parse_job_links_from_search P html -> canonical_job_url x.
Proof.
  intros (a & _ & Hl)%elem_of_parse_job_links_from_search.
  by apply job_link_canonical in Hl as [_ ?].
Qed.

(** X5.  [parse_job_links_from_search] returns each job link of the page
    once, in ascending order: its elements are exactly the canonical forms
    of the link targets that contain the job-detail marker before any query
    or fragment, and each of them contains the marker and is a fixed point of
    [normalize_job_url]. *)
Theorem parse_job_links_from_search_links (html : string) :
  let links := parse_job_links_from_search P html in
  NoDup links /\ ascending links
  /\ (forall x, x ∈ links <->
                exists a, a ∈ Soup.find_all (BeautifulSoup P html) "a" (Soup.has_attr "href")
                          /\ job_link (Soup.get a "href") = Some x)
  /\ (forall x, x ∈ links -> canonical_job_url x).
Proof.
  cbn zeta. split_and!.
  - rewrite parse_job_links_from_search_unfold, sorted_perm. apply NoDup_elements.
  - rewrite parse_job_links_from_search_unfold. apply sorted_sorted.
  - apply elem_of_parse_job_links_from_search.
  - apply parse_job_links_from_search_canonical.
Qed.

Lemma collect_pages_invariant pages : forall (urls : gset string) st,
  (forall x, x ∈ urls -> canonical_job_url x) ->
  exists urls' st',
    collect_pages P pages urls st = (Return urls', st')
    /\ (forall x, x ∈ urls' -> canonical_job_url x)
    /\ files P st' = files P st.
Proof.
  induction pages as [|page pages IH]; intros urls st Hurls; cbn [collect_pages].
  - by exists urls, st.
  - rewrite bind_unfold. unfold try_except. rewrite bind_unfold.
    pose proof (fetch_page_raises (SEARCH_URL +:+ "&start=" +:+ pretty (page * 25)%nat) st)
      as Hraise.
    pose proof (fetch_page_files (SEARCH_URL +:+ "&start=" +:+ pretty (page * 25)%nat) st)
      as Hfiles.
    destruct (fetch_page P _ st) as [[html|e] st1]; cbn [snd] in Hfiles.
    + cbn [mret M_ret]. destruct (bool_decide (parse_job_links_from_search P html = [])).
      * by exists urls, st1.
      * rewrite bind_unfold. cbn [sleep].
        destruct (IH (urls ∪ list_to_set (parse_job_links_from_search P html))
                     (State P (time_sleep P 2 (network P st1)) (files P st1)))
          as (urls' & st' & Hrun & Hinv & Hf).
        { intros x [Hx | Hx%elem_of_list_to_set]%elem_of_union; [by apply Hurls|].
          by apply (parse_job_links_from_search_canonical html). }
        exists urls', st'. split_and!; [done..|]. by rewrite Hf.
    + rewrite (Hraise e st1 eq_refl). by exists urls, st1.
Qed.

(** X6.  [collect_recent_remote_engineer_jobs] always returns, leaves every
    file as it is, and its records have pairwise distinct URLs in ascending
    order, each of them canonical.  When the first search page cannot be
    fetched it returns no record, in the state the failed fetch left. *)
Theorem collect_recent_remote_engineer_jobs_distinct (limit_pages : nat) (st : state P) :
  (exists jobs st',
      collect_recent_remote_engineer_jobs P limit_pages st = (Return jobs, st')
      /\ files P st' = files P st
      /\ NoDup (url <$> jobs) /\ ascending (url <$> jobs)
      /\ forall j, j ∈ jobs -> canonical_job_url (url j))
  /\ (forall n e st1,
         limit_pages = S n ->
         fetch_page P (SEARCH_URL +:+ "&start=0") st = (Raise e, st1) ->
         collect_recent_remote_engineer_jobs P limit_pages st = (Return [], st1)).
Proof.
  split.
  - unfold collect_recent_remote_engineer_jobs. rewrite bind_unfold.
    destruct (collect_pages_invariant (seq 0 limit_pages) ∅ st) as (urls & st1 & -> & Hinv & Hf1);
      [intros x Hx; by apply elem_of_empty in Hx|].
    destruct (filter_first_party_jobs_returns (Str.sorted (elements urls)) 2 st1)
      as (jobs & st2 & -> & Hsub & Hf2).
    exists jobs, st2. split_and!; [done|congruence| | |].
    + eapply sublist_NoDup; [|exact Hsub]. rewrite sorted_perm. apply NoDup_elements.
    + eapply sublist_strongly_sorted; [exact Hsub|apply sorted_sorted].
    + intros j Hj. apply Hinv. apply elem_of_elements. rewrite <- sorted_perm.
      eapply elem_of_sublist; [|exact Hsub]. apply list_elem_of_fmap. by exists j.
  - intros n e st1 -> Hfetch. unfold collect_recent_remote_engineer_jobs.
    rewrite bind_unfold. cbn [seq collect_pages]. rewrite bind_unfold. unfold try_except.
    rewrite bind_unfold.
    change (SEARCH_URL +:+ "&start=" +:+ pretty (0 * 25)%nat) with (SEARCH_URL +:+ "&start=0").
    rewrite Hfetch. rewrite (fetch_page_raises _ _ _ _ Hfetch). reflexivity.
Qed.

End DiscoveryFacts.

Section CompanyFacts.
Context {P : Platform}.

Lemma first_company_name_spec anchors :
  (String.length (first_company_name anchors) < 200)%nat
  /\ (first_company_name anchors = EmptyString
      \/ exists a, a ∈ anchors /\ Str.contains "/company/" (Soup.get a "href") = true
                   /\ first_company_name anchors = Soup.get_text a).
Proof.
  induction anchors as [|a anchors [IHlen IH]]; cbn [first_company_name].
  - split; [cbn; lia|by left].
  - assert (Hrest : first_company_name anchors = EmptyString
                    \/ exists a', a' ∈ a :: anchors
                                  /\ Str.contains "/company/" (Soup.get a' "href") = true
                                  /\ first_company_name anchors = Soup.get_text a').
    { destruct IH as [?|(a' & ? & ? & ?)]; [by left|]. right. exists a'.
      split_and!; [by right|done..]. }
    destruct (Str.contains "/company/" (Soup.get a "href")) eqn:Ec; [|done].
    destruct (negb (Str.is_empty (Soup.get_text a))
              && (String.length (Soup.get_text a) <? 200)%nat) eqn:En; [|done].
    apply andb_true_iff in En as [_ Hlen%Nat.ltb_lt]. split; [done|].
    right. exists a. split_and!; [by left|done..].
Qed.

(** X7.  The company name read from a job page is shorter than 200
    characters; it is empty when the page has no job header; when it is not
    empty it is the stripped text of a link of the header whose target
    contains [/company/]. *)
Theorem parse_company_name_from_job_page_bounded (html : string) :
  let name := parse_company_name_from_job_page P html in
  (String.length name < 200)%nat
  /\ (job_header (BeautifulSoup P html) = None -> name = EmptyString)
  /\ (name <> EmptyString ->
      exists header a,
        job_header (BeautifulSoup P html) = Some header
        /\ a ∈ Soup.find_all header "a" (Soup.has_attr "href")
        /\ Str.contains "/company/" (Soup.get a "href") = true
        /\ name = Soup.get_text a).
Proof.
  cbn zeta. unfold parse_company_name_from_job_page.
  destruct (job_header (BeautifulSoup P html)) as [header|].
  - destruct (first_company_name_spec (Soup.find_all header "a" (Soup.has_attr "href")))
      as [Hlen Hname].
    split_and!; [done|done|]. intros Hne. destruct Hname as [?|(a & ? & ? & ?)]; [done|].
    by exists header, a.
  - split_and!; [cbn; lia|done|done].
Qed.

Lemma first_company_url_spec anchors :
  Str.all (not_char "?") (first_company_url anchors) = true
  /\ Str.all (not_char "#") (first_company_url anchors) = true
  /\ Str.startswith (first_company_url anchors) "/" = false.
Proof.
  induction anchors as [|a anchors IH]; cbn [first_company_url]; [done|].
  destruct (negb (Str.contains "/company/" _)); [done|].
  cbn zeta. destruct (negb (Str.is_empty _)); [|done].
  destruct (base_facts (Str.strip (Soup.get a "href"))) as (H1 & H2 & H3). done.
Qed.

(** X8.  The company profile URL read from a job page has no query and no
    fragment and never starts with a slash (a relative target is put under
    the site origin); it is empty when the page has no job header. *)
Theorem parse_company_profile_url_from_job_page_absolute (html : string) :
  let company_url := parse_company_profile_url_from_job_page P html in
  Str.all (not_char "?") company_url = true
  /\ Str.all (not_char "#") company_url = true
  /\ Str.startswith company_url "/" = false
  /\ (job_header (BeautifulSoup P html) = None -> company_url = EmptyString).
Proof.
  cbn zeta. unfold parse_company_profile_url_from_job_page.
  destruct (job_header (BeautifulSoup P html)) as [header|]; [|done].
  destruct (first_company_url_spec (Soup.find_all header "a" (Soup.has_attr "href")))
    as (? & ? & ?). done.
Qed.

(** X9.  [is_company_size_1_to_50] always returns and touches no file.  It
    returns [False] without any request when the job page gives no company
    URL, and [False] when the company page cannot be fetched; when it is
    fetched the answer is that of [_parse_employee_range_from_text] on the
    page's text, after a pause of one second. *)
Theorem is_company_size_1_to_50_unverifiable (job_page_html : string) (st : state P) :
  let company_url := parse_company_profile_url_from_job_page P job_page_html in
  (exists small st', is_company_size_1_to_50 P job_page_html st = (Return small, st')
                     /\ files P st' = files P st)
  /\ (company_url = EmptyString ->
      is_company_size_1_to_50 P job_page_html st = (Return false, st))
  /\ (forall e st1,
         company_url <> EmptyString -> fetch_page P company_url st = (Raise e, st1) ->
         is_company_size_1_to_50 P job_page_html st = (Return false, st1))
  /\ (forall company_html st1,
         company_url <> EmptyString ->
         fetch_page P company_url st = (Return company_html, st1) ->
         is_company_size_1_to_50 P job_page_html st
         = (Return (_parse_employee_range_from_text
                      (Soup.get_text (BeautifulSoup P company_html))),
            (sleep P 1 st1).2)).
Proof.
  cbn zeta. split_and!.
  - destruct (is_company_size_1_to_50_returns job_page_html st) as (small & st' & Hrun).
    exists small, st'. split; [done|].
    pose proof (is_company_size_1_to_50_files job_page_html st) as Hf.
    by rewrite Hrun in Hf.
  - intros Hurl. unfold is_company_size_1_to_50. by rewrite Hurl.
  - intros e st1 Hurl%is_empty_false Hfetch. unfold is_company_size_1_to_50.
    rewrite Hurl, bind_unfold. unfold try_except. rewrite bind_unfold, Hfetch.
    by rewrite (fetch_page_raises _ _ _ _ Hfetch).
  - intros company_html st1 Hurl%is_empty_false Hfetch. unfold is_company_size_1_to_50.
    rewrite Hurl, bind_unfold. unfold try_except. by rewrite bind_unfold, Hfetch.
Qed.

End CompanyFacts.

Section StoreRoundTrip.
Context {P : Platform}.






End StoreRoundTrip.


(** X6 without a network: no record, and the state of the failed fetch. *)
Lemma collect_recent_remote_engineer_jobs_distinct_witness :
  collect_recent_remote_engineer_jobs offline_platform 1 (start offline_platform 0%nat ∅)
  = (Return [], start offline_platform 0%nat ∅).
Proof.
  exact (proj2 (@collect_recent_remote_engineer_jobs_distinct offline_platform 1
                  (start offline_platform 0%nat ∅))
           0%nat ConnectionError (start offline_platform 0%nat ∅) eq_refl eq_refl).
Defined.

(** X9 on a page without a job header: no request is made. *)
Lemma is_company_size_1_to_50_unverifiable_witness :
  is_company_size_1_to_50 classifier_platform "indeed" (start classifier_platform 0%nat ∅)
  = (Return false, start classifier_platform 0%nat ∅).
Proof.
  exact (proj1 (proj2 (@is_company_size_1_to_50_unverifiable classifier_platform "indeed"
                         (start classifier_platform 0%nat ∅))) eq_refl).
Defined.

Section SteadyNetwork.
Context {P : Platform}.

Lemma fetch_page_steady (page : string -> option response) url (st : state P) :
  (forall u headers w, (session_get P u headers w).1 = page u) ->
  match fetch_page P url st with
  | (Return html, _) => page_text (page url) = Some html
  | (Raise _, _) => page_text (page url) = None
  end.
Proof.
  intros Hpage. unfold fetch_page. rewrite bind_unfold. unfold lift_net.
  specialize (Hpage url [("User-Agent", USER_AGENT)] (network P st)).
  destruct (session_get P url _ (network P st)) as [[resp|] w]; cbn [fst] in Hpage;
    rewrite <- Hpage; [|done].
  rewrite bind_unfold. unfold raise_for_status, page_text.
  by destruct ((400 <=? status_code resp)%Z && (status_code resp <? 600)%Z).
Qed.

Lemma step_outcome_steady (page : string -> option response) url (st : state P) :
  (forall u headers w, (session_get P u headers w).1 = page u) ->
  (step_outcome url st).1 = from_option (fun r => [r]) [] (accepted_record P page url).
Proof.
  intros Hpage. unfold step_outcome, accepted_record.
  pose proof (fetch_page_steady page url st Hpage) as Hjob.
  destruct (fetch_page P url st) as [[html|e] st1]; rewrite Hjob; [|done].
  cbn [mbind option_bind]. destruct (is_first_party_job P html); [|done].
  unfold is_company_size_1_to_50. cbn zeta.
  destruct (Str.is_empty (parse_company_profile_url_from_job_page P html)); [done|].
  rewrite bind_unfold. unfold try_except. rewrite bind_unfold.
  pose proof (fetch_page_steady page (parse_company_profile_url_from_job_page P html) st1 Hpage)
    as Hcompany.
  pose proof (fetch_page_raises (parse_company_profile_url_from_job_page P html) st1) as Hraise.
  destruct (fetch_page P (parse_company_profile_url_from_job_page P html) st1)
    as [[company_html|e] st2]; rewrite Hcompany.
  - rewrite bind_unfold. cbn [sleep mret M_ret mbind option_bind].
    by destruct (_parse_employee_range_from_text _).
  - rewrite (Hraise e st2 eq_refl). done.
Qed.

Lemma filter_loop_steady (page : string -> option response) delay job_urls :
  (forall u headers w, (session_get P u headers w).1 = page u) ->
  forall results st,
    (filter_loop P delay job_urls results st).1
    = Return (results ++ omap (accepted_record P page) job_urls)%list.
Proof.
  intros Hpage. induction job_urls as [|u job_urls IH]; intros results st;
    cbn [filter_loop omap].
  - cbn. by rewrite app_nil_r.
  - rewrite bind_unfold, filter_step_unfold, IH, (step_outcome_steady page) by done.
    rewrite <- app_assoc. f_equal. f_equal. simpl.
    by destruct (accepted_record P page u).
Qed.

(** X13.  On a network whose answer to a request depends on the requested
    URL alone, [filter_first_party_jobs] returns, in the order of its input,
    one record for each URL whose job page is fetched without an error
    status, passes [is_first_party_job], and links a company page that is
    fetched without an error status and whose text is in range; every other
    URL is left out, and the record carries the company name of the job
    page. *)
Theorem filter_first_party_jobs_steady (page : string -> option response)
        (job_urls : list string) (delay_seconds : Q) (st : state P) :
  (forall u headers w, (session_get P u headers w).1 = page u) ->
  (filter_first_party_jobs P job_urls delay_seconds st).1
  = Return (omap (accepted_record P page) job_urls).
Proof. intros Hpage. unfold filter_first_party_jobs. by rewrite (filter_loop_steady page). Qed.

End SteadyNetwork.

(** X13 on a network that serves the Acme pages: the job page is accepted;
    a URL that is no page of the site is skipped. *)
Lemma filter_first_party_jobs_steady_witness :
  (filter_first_party_jobs no_notifier_platform
     ["https://www.linkedin.com/jobs/view/1"; "https://example.org/"] 2
     (start no_notifier_platform 0%nat ∅)).1
  = Return [acme_job "https://www.linkedin.com/jobs/view/1"].
Proof.
  rewrite (@filter_first_party_jobs_steady no_notifier_platform
             (fun u => (example_get u [] 0%nat).1)).
  - vm_compute. reflexivity.
  - intros u headers w. unfold no_notifier_platform, example_platform, example_get. cbn.
    repeat (destruct (Str.contains _ u); [reflexivity|]). reflexivity.
Defined.

Section FailureFacts.
Context {P : Platform}.




End FailureFacts.

